(** * Southclaws/opt: the Optional container and its combinators

    A shallow embedding of [opt.go] (package [opt]) and the properties of
    its constructors, accessors, pipelines and JSON hooks.

    [Optional[T]] is declared as [container[T]], which is the Go slice type
    [[]T]: the empty optional is the nil slice and [New] builds a slice
    literal of one element.  The embedding keeps that representation: a
    slice is nil or a header (base address, length) into a store of [T]
    cells, a pointer [*T] is nil or an address in the same store, and every
    function that allocates, reads memory or calls a caller-supplied
    function is a computation over the store that may also panic. *)

From Stdlib Require Import Ascii String.
From stdpp Require Import base list strings.

Open Scope string_scope.
Open Scope list_scope.

(** ** The Go runtime fragment used by the package *)

Module Go.

(** A call either returns a value and the next state, or panics. *)
Inductive outcome (A : Type) : Type :=
| Returned (a : A)
| Panicked (msg : string).
Arguments Returned {A} a.
Arguments Panicked {A} msg.

Definition M (St A : Type) : Type := St -> outcome (A * St).

Definition ret {St A} (a : A) : M St A :=
  fun s => Returned (a, s).

Definition bind {St A B} (m : M St A) (k : A -> M St B) : M St B :=
  fun s =>
    match m s with
    | Returned (a, s') => k a s'
    | Panicked msg => Panicked msg
    end.

Definition panic {St A} (msg : string) : M St A :=
  fun _ => Panicked msg.

Declare Scope go_scope.
Delimit Scope go_scope with go.
Notation "x <- c1 ;; c2" := (bind c1 (fun x => c2))
  (at level 100, c1 at next level, right associativity) : go_scope.
Open Scope go_scope.

(** [var zero T]: every Go type has a zero value. *)
Class Zero (T : Type) : Type := zero : T.

(** Go's [error] interface value: [None] is the nil error, [Some e] carries
    an error value of an arbitrary type [E]. *)
Definition error (E : Type) : Type := option E.

(** Addresses of cells in the store. *)
Definition addr : Type := nat.

(** A pointer [*T]. *)
Inductive pointer (T : Type) : Type :=
| nil_ptr
| ref (a : addr).
Arguments nil_ptr {T}.
Arguments ref {T} a.

(** A slice [[]T]: nil, or a header with the address of element 0 of its
    backing array and its length.  The capacity is left out: nothing in the
    package appends to or reslices an optional. *)
Inductive slice (T : Type) : Type :=
| nil_slice
| mk_slice (base : addr) (len : nat).
Arguments nil_slice {T}.
Arguments mk_slice {T} base len.

(** A state [St] has a store of cells of type [T]: the cells allocated so
    far, in allocation order; a cell's address is its position. *)
Class Store (St T : Type) : Type := {
  cells : St -> list T;
  put_cells : list T -> St -> St;
  cells_put : forall c s, cells (put_cells c s) = c
}.

#[export] Instance store_here (T : Type) : Store (list T) T :=
  {| cells := fun s => s;
     put_cells := fun c _ => c;
     cells_put := fun c s => eq_refl |}.

(** A state paired with data the package never looks at (a call counter, a
    caller's variables) keeps its store. *)
#[export] Instance store_snd (X St T : Type) `{Store St T} : Store (X * St) T | 10 :=
  {| cells := fun s => cells (snd s);
     put_cells := fun c s => (fst s, put_cells c (snd s));
     cells_put := fun c s => cells_put c (snd s) |}.

#[export] Instance store_fst (St T : Type) : Store (list T * St) T | 5 :=
  {| cells := fun s => fst s;
     put_cells := fun c s => (c, snd s);
     cells_put := fun c s => eq_refl |}.

Section memory.
Context {St T : Type} `{!Store St T}.

(** Reading a cell.  Go is memory safe, a pointer or slice never refers to
    a cell that was not allocated; the model reports such a read as a
    panic. *)
Definition load (a : addr) : M St T :=
  fun s =>
    match cells s !! a with
    | Some v => Returned (v, s)
    | None => Panicked "invalid memory address"
    end.

(** Writing a cell through a pointer. *)
Definition store (a : addr) (v : T) : M St unit :=
  fun s =>
    match cells s !! a with
    | Some _ => Returned (tt, put_cells (<[a:=v]> (cells s)) s)
    | None => Panicked "invalid memory address"
    end.

(** [*p] *)
Definition deref (p : pointer T) : M St T :=
  match p with
  | nil_ptr => panic "invalid memory address or nil pointer dereference"
  | ref a => load a
  end.

(** [p == nil] for a pointer, [o == nil] for a slice. *)
Definition ptr_is_nil (p : pointer T) : bool :=
  match p with nil_ptr => true | ref _ => false end.

Definition is_nil (o : slice T) : bool :=
  match o with nil_slice => true | mk_slice _ _ => false end.

(** The composite literal [[]T{v1, ..., vn}]: a fresh backing array holding
    the values, and a non-nil slice over it. *)
Definition slice_lit (vs : list T) : M St (slice T) :=
  fun s => Returned (mk_slice (length (cells s)) (length vs),
                     put_cells (cells s ++ vs) s).

(** [&x] of a local variable that escapes: the variable lives in a fresh
    cell. *)
Definition new_var (v : T) : M St (pointer T) :=
  fun s => Returned (ref (length (cells s)), put_cells (cells s ++ [v]) s).

(** [o[i]], with Go's bounds check. *)
Definition index (o : slice T) (i : nat) : M St T :=
  match o with
  | nil_slice => panic "index out of range"
  | mk_slice b n => if Nat.ltb i n then load (b + i) else panic "index out of range"
  end.

(** [&o[i]], with the same bounds check. *)
Definition index_addr (o : slice T) (i : nat) : M St (pointer T) :=
  match o with
  | nil_slice => panic "index out of range"
  | mk_slice b n => if Nat.ltb i n then ret (ref (b + i)) else panic "index out of range"
  end.

End memory.

End Go.

Import Go.

(** ** The collaborator: [encoding/json]

    The package delegates the payload to [json.Marshal] and
    [json.Unmarshal], which are not part of it.  They are taken as an
    interface over the payload type.  [Unmarshal data v] models
    [json.Unmarshal(data, &v)]: it is given the value the variable holds
    before the call and returns the value it holds after, with the error. *)

Module json.

Class Codec (St E T : Type) : Type := {
  Marshal : T -> M St (string * error E);
  Unmarshal : string -> T -> M St (T * error E)
}.

End json.

(** ** The collaborator: [fmt]

    [String] and [GoString] format the payload with the verb [%v] of
    [fmt.Sprintf].  What the verb prints for a value of the payload type is
    taken as an interface; [Sprintf pre v post] is [fmt.Sprintf] on a format
    made of the literal text [pre], one [%v] and the literal text [post]. *)

Module fmt.

Class Formatter (St T : Type) : Type := {
  verb_v : T -> M St string
}.

Definition Sprintf {St T : Type} `{!Formatter St T} (pre : string) (v : T)
    (post : string) : M St string :=
  x <- verb_v v ;; ret (pre ++ x ++ post)%string.

End fmt.

(** ** Package [opt] *)

Module opt.

(** [type container[T any] []T] and [type Optional[T any] container[T]] *)
Definition container (T : Type) : Type := slice T.
Definition Optional (T : Type) : Type := container T.

Section package.
Context {St : Type}.

(** *** Constructors *)

Section constructors.
Context {T : Type} `{!Store St T}.

(** [func NewEmpty[T any]() Optional[T] { return nil }] *)
Definition NewEmpty : Optional T := nil_slice.

(** [func New[T any](value T) Optional[T] { return Optional[T]{value} }] *)
Definition New (value : T) : M St (Optional T) :=
  slice_lit [value].

Definition NewSafe (value : T) (ok : bool) : M St (Optional T) :=
  if ok then slice_lit [value]
  else ret nil_slice.

Definition NewIf (v : T) (fn : T -> M St bool) : M St (Optional T) :=
  b <- fn v ;;
  if (b : bool) then New v
  else ret NewEmpty.

Definition NewPtr (ptr : pointer T) : M St (Optional T) :=
  if ptr_is_nil ptr then ret NewEmpty
  else v <- deref ptr ;; New v.

Definition NewPtrIf (ptr : pointer T) (fn : T -> M St bool) : M St (Optional T) :=
  if ptr_is_nil ptr then ret NewEmpty
  else
    v <- deref ptr ;;
    b <- fn v ;;
    if negb b then ret NewEmpty
    else v' <- deref ptr ;; New v'.

Definition NewPtrOr (ptr : pointer T) (fallback : T) : M St (Optional T) :=
  if ptr_is_nil ptr then New fallback
  else v <- deref ptr ;; New v.

End constructors.

Section mapped_constructors.
Context {T R : Type} `{!Store St T} `{!Store St R}.

Definition NewMap (v : T) (fn : T -> M St R) : M St (Optional R) :=
  r <- fn v ;; New r.

Definition NewPtrMap (ptr : pointer T) (fn : T -> M St R) : M St (Optional R) :=
  if ptr_is_nil ptr then ret NewEmpty
  else v <- deref ptr ;; r <- fn v ;; New r.

End mapped_constructors.

(** *** Accessors *)

Section accessors.
Context {T : Type} `{!Store St T} `{!Zero T}.

(** [func (o Optional[T]) Ok() bool { return o != nil }] *)
Definition Ok (o : Optional T) : bool :=
  negb (is_nil o).

(** [Get] has named results [(value T, ok bool)]; the bare [return] of the
    nil branch returns their zero values. *)
Definition Get (o : Optional T) : M St (T * bool) :=
  if is_nil o then ret (zero, false)
  else v <- index o 0 ;; ret (v, true).

Definition Ptr (o : Optional T) : M St (pointer T) :=
  if is_nil o then ret nil_ptr
  else index_addr o 0.

Definition Or (o : Optional T) (v : T) : M St T :=
  if is_nil o then ret v
  else index o 0.

Definition Call (o : Optional T) (f : T -> M St unit) : M St unit :=
  if negb (is_nil o) then v <- index o 0 ;; f v
  else ret tt.

Definition OrCall (o : Optional T) (fn : unit -> M St T) : M St T :=
  if negb (is_nil o) then index o 0
  else fn tt.

Definition OrZero (o : Optional T) : M St T :=
  if is_nil o then ret zero
  else index o 0.

End accessors.

Section mapped_accessors.
Context {In Out : Type} `{!Store St In} `{!Store St Out}.
Context `{!Zero In} `{!Zero Out}.

Definition GetMap (o : Optional In) (fn : In -> M St Out) : M St (Out * bool) :=
  if is_nil o then ret (zero, false)
  else x <- index o 0 ;; y <- fn x ;; ret (y, true).

Definition GetMapC (fn : In -> M St Out) : Optional In -> M St (Out * bool) :=
  fun o => GetMap o fn.

Definition PtrMap (o : Optional In) (fn : In -> M St Out) : M St (pointer Out) :=
  r <- Get o ;;
  if snd r then v <- fn (fst r) ;; new_var v
  else ret nil_ptr.

Definition PtrMapC (fn : In -> M St Out) : Optional In -> M St (pointer Out) :=
  fun o => PtrMap o fn.

End mapped_accessors.

(** *** Conditional pipelines *)

Section pipelines.
Context {In Out : Type} `{!Store St In} `{!Store St Out}.

(** [Map] has the named result [v Optional[Out]]; the bare [return] of the
    nil branch returns nil. *)
Definition Map (o : Optional In) (fn : In -> M St Out) : M St (Optional Out) :=
  if is_nil o then ret nil_slice
  else x <- index o 0 ;; y <- fn x ;; slice_lit [y].

Definition MapC (fn : In -> M St Out) : Optional In -> M St (Optional Out) :=
  fun o => Map o fn.

(** [MapErr] has the named results [(v Optional[Out], err error)]. *)
Definition MapErr {E : Type} (o : Optional In) (fn : In -> M St (Out * error E))
  : M St (Optional Out * error E) :=
  if is_nil o then ret (nil_slice, None)
  else
    x <- index o 0 ;;
    r <- fn x ;;
    match snd r with
    | Some err => ret (nil_slice, Some err)
    | None => v <- slice_lit [fst r] ;; ret (v, None)
    end.

Definition MapErrC {E : Type} (fn : In -> M St (Out * error E))
  : Optional In -> M St (Optional Out * error E) :=
  fun o => MapErr o fn.

End pipelines.

(** *** JSON hooks *)

Section json_hooks.
Context {T E : Type} `{!Store St T} `{!Zero T} `{!json.Codec St E T}.

Definition MarshalJSON (o : Optional T) : M St (string * error E) :=
  r <- Get o ;;
  if snd r then json.Marshal (fst r)
  else ret ("null", None).

(** The receiver is [o *Optional[T]]: the optional the pointer refers to is
    passed in, and the optional it refers to after the call is returned
    with the error. *)
Definition UnmarshalJSON (o : Optional T) (data : string) : M St (Optional T * error E) :=
  if String.eqb data "null" then ret (NewEmpty, None)
  else
    r <- json.Unmarshal data zero ;;
    match snd r with
    | Some err => ret (o, Some err)
    | None => o' <- New (fst r) ;; ret (o', None)
    end.

End json_hooks.

End package.

(** *** Utilities

    [String] and [GoString] make an optional a [fmt.Stringer] and a
    [fmt.GoStringer].  They are kept in a module of their own, [String]
    being also the name of the constructor of strings. *)

Module Stringer.
Section utilities.
Context {St T : Type} `{!Store St T} `{!Zero T} `{!fmt.Formatter St T}.

(** [fmt.Sprintf("%v", v)], or the empty string. *)
Definition String (o : Optional T) : M St string :=
  r <- Get o ;;
  if snd r then fmt.Sprintf "" (fst r) ""
  else ret "".

(** [fmt.Sprintf("Optional[%v]", v)], or ["Optional[]"]. *)
Definition GoString (o : Optional T) : M St string :=
  r <- Get o ;;
  if snd r then fmt.Sprintf "Optional[" (fst r) "]"
  else ret "Optional[]".

End utilities.
End Stringer.

End opt.

(** ** The earlier revision of the package

    [opt.go] carries a second copy of the package, an earlier revision
    (from its second package clause on).  Its constructors, [Ok], [Get],
    [Ptr], [PtrMap], [Or], [OrCall], [OrZero] and the JSON hooks are the
    functions above, word for word.  These four differ: [If] is the later
    [Call], [OrNil] is a second [Ptr], and [Map] and [MapErr] return the
    bare result of [fn] instead of an optional. *)

Module opt_earlier.

Section package.
Context {St : Type}.

Section conditional.
Context {T : Type} `{!Store St T}.

Definition If (o : opt.Optional T) (f : T -> M St unit) : M St unit :=
  if negb (is_nil o) then v <- index o 0 ;; f v
  else ret tt.

Definition OrNil (o : opt.Optional T) : M St (pointer T) :=
  if is_nil o then ret nil_ptr
  else index_addr o 0.

End conditional.

Section mapping.
Context {In Out : Type} `{!Store St In} `{!Zero Out}.

(** [Map] has the named result [v Out]; the bare [return] of the nil
    branch returns its zero value. *)
Definition Map (o : opt.Optional In) (fn : In -> M St Out) : M St Out :=
  if is_nil o then ret zero
  else x <- index o 0 ;; fn x.

(** [MapErr] has the named results [(v Out, err error)]. *)
Definition MapErr {E : Type} (o : opt.Optional In) (fn : In -> M St (Out * error E))
  : M St (Out * error E) :=
  if is_nil o then ret (zero, None)
  else x <- index o 0 ;; fn x.

End mapping.

End package.

End opt_earlier.

Import opt.

(** ** Zero values of the payload types used in the examples *)

#[export] Instance zero_bool : Zero bool := false.
#[export] Instance zero_nat : Zero nat := 0.
#[export] Instance zero_string : Zero string := "".
#[export] Instance zero_pointer (T : Type) : Zero (pointer T) := nil_ptr.
#[export] Instance zero_slice (T : Type) : Zero (slice T) := nil_slice.

(** ** The two states of an optional *)

Section states.
Context {St T : Type} `{!Store St T}.

(** Empty: the nil slice. *)
Definition Empty (o : Optional T) : Prop := o = NewEmpty.

(** The value an optional holds in a state: the single element of its
    backing array. *)
Definition held (s : St) (o : Optional T) : option T :=
  match o with
  | mk_slice b 1 => cells s !! b
  | _ => None
  end.

(** Present(v): a slice of one element whose cell holds [v]. *)
Definition Present (s : St) (o : Optional T) (v : T) : Prop :=
  held s o = Some v.

(** One of the two states. *)
Definition two_states (s : St) (o : Optional T) : Prop :=
  Empty o \/ exists v, Present s o v.

(** The state after an allocation: the old cells, then the new ones. *)
Definition grown_by (s s' : St) (vs : list T) : Prop :=
  cells s' = cells s ++ vs.

End states.

(** Instrumenting a caller-supplied function with an invocation counter
    kept next to the state, as a test would do with a closure over a local
    variable. *)
Definition counted {St A B : Type} (fn : A -> M St B) : A -> M (nat * St) B :=
  fun x s =>
    match fn x (snd s) with
    | Returned (b, s') => Returned (b, (S (fst s), s'))
    | Panicked msg => Panicked msg
    end.

(** A Go function without effects, as a computation. *)
Definition pure {St A B : Type} (f : A -> B) : A -> M St B :=
  fun x => ret (f x).

Section round_trip.
Context {St E T : Type} `{!Store St T} `{!Zero T} `{!json.Codec St E T}.

(** Decoding the encoding of Present(v) restores Present(v), whatever the
    target held before. *)
Definition round_trips (v : T) : Prop :=
  forall (s : St) (o tgt : Optional T),
    Present s o v ->
    exists data s1 o' s2,
      MarshalJSON o s = Returned ((data, None), s1)
      /\ UnmarshalJSON tgt data s1 = Returned ((o', None), s2)
      /\ Present s2 o' v.

End round_trip.

(** ** [encoding/json] at [bool] and at pointers

    Two instances of the collaborator, as the documentation of
    [encoding/json] describes it.  A decoder error is one value carrying
    the input; the syntax and type errors of [encoding/json] are not told
    apart. *)

Inductive json_error : Type :=
| decode_error (data : string).

Definition json_space (c : ascii) : bool :=
  (Ascii.eqb c " " || Ascii.eqb c "009" || Ascii.eqb c "010" || Ascii.eqb c "013")%char.

Fixpoint skip_spaces (s : string) : string :=
  match s with
  | String c rest => if json_space c then skip_spaces rest else s
  | EmptyString => EmptyString
  end.

(** The JSON text without the white space around it. *)
Definition json_text (data : string) : string :=
  String.rev (skip_spaces (String.rev (skip_spaces data))).

(** Booleans encode as [true] and [false]; decoding [null] into a bool
    leaves it as it is and is not an error. *)
#[export] Instance codec_bool (St : Type) : json.Codec St json_error bool := {|
  json.Marshal := fun b => ret (if b : bool then "true" else "false", None);
  json.Unmarshal := fun data v =>
    let text := json_text data in
    if String.eqb text "true" then ret (true, None)
    else if String.eqb text "false" then ret (false, None)
    else if String.eqb text "null" then ret (v, None)
    else ret (v, Some (decode_error data))
|}.

(** A pointer encodes as the value pointed to and a nil pointer as [null];
    decoding [null] sets the pointer to nil, decoding anything else
    allocates when the pointer is nil and decodes into the cell.  (On
    malformed input [encoding/json] returns before it allocates; the
    instance allocates first.  [UnmarshalJSON] drops the variable on any
    error.) *)
#[export] Instance codec_pointer (St E T : Type) `{!Store St T} `{!Zero T}
    `{!json.Codec St E T} : json.Codec St E (pointer T) := {|
  json.Marshal := fun p =>
    match p with
    | nil_ptr => ret ("null", None)
    | ref a => v <- load a ;; json.Marshal v
    end;
  json.Unmarshal := fun data p =>
    if String.eqb (json_text data) "null" then ret (nil_ptr, None)
    else
      q <- (match p with nil_ptr => new_var zero | ref _ => ret p end) ;;
      v0 <- deref q ;;
      r <- json.Unmarshal data v0 ;;
      match q with
      | nil_ptr => ret (q, snd r)
      | ref a => _ <- store a (fst r) ;; ret (q, snd r)
      end
|}.

(** The state of a program whose optionals hold [*bool]: the [bool] cells
    and the [*bool] cells. *)
Definition ptr_state : Type := list bool * list (pointer bool).

(** The state of a program whose optionals hold strings and numbers. *)
Definition conv_state : Type := list string * list nat.

(** A supplier and two transformers used in the examples: [func() int { return 2 }],
    a successor on numbers, and a parser that accepts one numeral, as
    [strconv.Atoi] accepts ["69"] and rejects ["value"] in the tests. *)
Definition two {St : Type} : unit -> M St nat :=
  fun _ => ret 2.

Definition succ_fn {St : Type} : nat -> M St nat :=
  fun n => ret (S n).

Definition atoi {St : Type} : string -> M St (nat * error string) :=
  fun s => if String.eqb s "69" then ret (69, None)
           else ret (0, Some "invalid syntax").

(** A predicate that overwrites the cell at address 0 before it accepts,
    as a closure holding the pointer it is asked about can do. *)
Definition overwrite_then_accept : nat -> M (list nat) bool :=
  fun _ => _ <- store 0 99 ;; ret true.

(** A visitor that records the value it is called with. *)
Definition record : nat -> M (list nat * list nat) unit :=
  fun v s => Returned (tt, (fst s, v :: snd s)).

(** [%v] prints a string as it is. *)
#[export] Instance formatter_string (St : Type) : fmt.Formatter St string := {|
  fmt.verb_v := fun v => ret v
|}.

(** ** Basic facts about the store and the two states *)

Section basics.
Context {St T : Type} `{!Store St T}.

Lemma Present_not_Empty (s : St) (o : Optional T) (v : T) :
  Present s o v -> ~ Empty o.
Proof. intros HP HE. rewrite HE in HP. discriminate HP. Qed.

Lemma Present_header (s : St) (o : Optional T) (v : T) :
  Present s o v -> exists b, o = mk_slice b 1 /\ cells s !! b = Some v.
Proof.
  unfold Present, held. destruct o as [|b [|[|n]]]; try discriminate.
  intros Hb. exists b. split; [reflexivity | exact Hb].
Qed.

Lemma Present_inj (s : St) (o : Optional T) (v w : T) :
  Present s o v -> Present s o w -> v = w.
Proof. unfold Present. intros Hv Hw. rewrite Hv in Hw. congruence. Qed.

Lemma index_Present (s : St) (o : Optional T) (v : T) :
  Present s o v -> index o 0 s = Returned (v, s).
Proof.
  intros (b & -> & Hb)%Present_header.
  unfold index, load. simpl. rewrite Nat.add_0_r, Hb. reflexivity.
Qed.

Lemma index_addr_Present (s : St) (o : Optional T) (v : T) :
  Present s o v ->
  exists a, index_addr o 0 s = Returned (ref a, s) /\ o = mk_slice a 1 /\ cells s !! a = Some v.
Proof.
  intros (b & -> & Hb)%Present_header. exists b.
  unfold index_addr, ret. simpl. rewrite Nat.add_0_r. auto.
Qed.

Lemma slice_lit_one (v : T) (s : St) :
  exists s', slice_lit [v] s = Returned (mk_slice (length (cells s)) 1, s')
             /\ grown_by s s' [v]
             /\ Present s' (mk_slice (length (cells s)) 1) v.
Proof.
  eexists. split; [reflexivity|].
  unfold grown_by, Present, held. rewrite cells_put. split; [reflexivity|].
  apply list_lookup_middle. reflexivity.
Qed.

Lemma grown_keeps (s s' : St) (vs : list T) (a : addr) (x : T) :
  grown_by s s' vs -> cells s !! a = Some x -> cells s' !! a = Some x.
Proof. unfold grown_by. intros -> Ha. apply lookup_app_l_Some. exact Ha. Qed.

Lemma grown_keeps_Present (s s' : St) (vs : list T) (o : Optional T) (v : T) :
  grown_by s s' vs -> Present s o v -> Present s' o v.
Proof.
  intros Hg (b & -> & Hb)%Present_header. unfold Present, held.
  eapply grown_keeps; eassumption.
Qed.

Lemma New_spec (v : T) (s : St) :
  exists o s', New v s = Returned (o, s')
               /\ Present s' o v
               /\ o = mk_slice (length (cells s)) 1
               /\ grown_by s s' [v].
Proof.
  destruct (slice_lit_one v s) as (s' & Hrun & Hg & HP).
  exists (mk_slice (length (cells s)) 1), s'. unfold New. auto.
Qed.

Lemma deref_valid (a : addr) (v : T) (s : St) :
  cells s !! a = Some v -> deref (ref a) s = Returned (v, s).
Proof. intros Ha. unfold deref, load. rewrite Ha. reflexivity. Qed.

End basics.

(** Steps of a computation: unfold the sequencing around a step whose
    result is known. *)
Lemma bind_Returned {St A B : Type} (m : M St A) (k : A -> M St B) (s s' : St) (a : A) :
  m s = Returned (a, s') -> bind m k s = k a s'.
Proof. intros Hm. unfold bind. rewrite Hm. reflexivity. Qed.

Lemma bind_Panicked {St A B : Type} (m : M St A) (k : A -> M St B) (s : St) (msg : string) :
  m s = Panicked msg -> bind m k s = Panicked msg.
Proof. intros Hm. unfold bind. rewrite Hm. reflexivity. Qed.

Lemma bind_inv {St A B : Type} (m : M St A) (k : A -> M St B) (s s' : St) (b : B) :
  bind m k s = Returned (b, s') ->
  exists a s1, m s = Returned (a, s1) /\ k a s1 = Returned (b, s').
Proof.
  unfold bind. destruct (m s) as [[a s1]|msg]; [| discriminate].
  intros Hk. exists a, s1. split; [reflexivity | exact Hk].
Qed.

(** ** The constructors and pipelines build one of the two states

    Whatever they are given, an optional they return is Empty or
    Present in the state they leave. *)

Ltac invert_run H :=
  repeat match type of H with
         | bind _ _ _ = Returned _ =>
             let H1 := fresh "Hstep" in
             apply bind_inv in H as (? & ? & H1 & H)
         end;
  try match type of H with
      | ret _ _ = Returned _ => unfold ret in H; simplify_eq
      end.

Section built.
Context {St T : Type} `{!Store St T}.

Lemma slice_lit_Present (v : T) (s s' : St) (o : Optional T) :
  slice_lit [v] s = Returned (o, s') -> Present s' o v.
Proof.
  destruct (slice_lit_one v s) as (s1 & Hrun & _ & HP).
  rewrite Hrun. intros [= <- <-]. exact HP.
Qed.

Lemma New_two_states (v : T) (s s' : St) (o : Optional T) :
  New v s = Returned (o, s') -> two_states s' o.
Proof. intros HP%slice_lit_Present. right. exists v. exact HP. Qed.






End built.

Section built_mapped.
Context {St In Out : Type} `{!Store St In} `{!Store St Out}.

Lemma NewMap_two_states (v : In) (fn : In -> M St Out) (s s' : St) (o : Optional Out) :
  NewMap v fn s = Returned (o, s') -> two_states s' o.
Proof.
  unfold NewMap. intros H. invert_run H. eapply New_two_states. exact H.
Qed.

Lemma NewPtrMap_two_states (ptr : pointer In) (fn : In -> M St Out) (s s' : St)
    (o : Optional Out) :
  NewPtrMap ptr fn s = Returned (o, s') -> two_states s' o.
Proof.
  unfold NewPtrMap. destruct ptr as [|a]; cbn [ptr_is_nil]; intros H; invert_run H.
  - left. reflexivity.
  - eapply New_two_states. exact H.
Qed.

Lemma Map_two_states (i : Optional In) (fn : In -> M St Out) (s s' : St)
    (o : Optional Out) :
  Map i fn s = Returned (o, s') -> two_states s' o.
Proof.
  unfold Map. destruct i as [|b n]; cbn [is_nil]; intros H; invert_run H.
  - left. reflexivity.
  - right. eexists. eapply slice_lit_Present. exact H.
Qed.

Lemma MapErr_two_states {E : Type} (i : Optional In) (fn : In -> M St (Out * error E))
    (s s' : St) (o : Optional Out) (err : error E) :
  MapErr i fn s = Returned ((o, err), s') -> two_states s' o.
Proof.
  unfold MapErr. destruct i as [|b n]; cbn [is_nil]; intros H; invert_run H.
  - left. reflexivity.
  - match type of H with
    | match snd ?r with _ => _ end _ = _ => destruct (snd r); invert_run H
    end.
    + left. reflexivity.
    + right. eexists. eapply slice_lit_Present. eassumption.
Qed.

End built_mapped.

Section built_decoded.
Context {St E T : Type} `{!Store St T} `{!Zero T} `{!json.Codec St E T}.

Lemma UnmarshalJSON_two_states (tgt : Optional T) (data : string) (s s' : St)
    (o : Optional T) :
  UnmarshalJSON tgt data s = Returned ((o, None), s') -> two_states s' o.
Proof.
  unfold UnmarshalJSON. destruct (String.eqb data "null"); intros Hrun;
    invert_run Hrun.
  - left. reflexivity.
  - match type of Hrun with
    | match snd ?r with _ => _ end _ = _ => destruct (snd r); invert_run Hrun
    end.
    eapply New_two_states. eassumption.
Qed.

End built_decoded.

(** ** Construction *)

Section construction.
Context {St T : Type} `{!Store St T}.

(** C7. Safe-pair construction: for every value [v], [NewSafe(v, true)] is
    Present(v), held in a freshly allocated cell, and [NewSafe(v, false)]
    is Empty and allocates nothing. *)
Theorem NewSafe_pair (v : T) (s : St) :
  NewSafe v false s = Returned (NewEmpty, s)
  /\ exists o s', NewSafe v true s = Returned (o, s')
                  /\ Present s' o v
                  /\ grown_by s s' [v].
Proof.
  split; [reflexivity|].
  destruct (slice_lit_one v s) as (s' & Hrun & Hg & HP).
  exists (mk_slice (length (cells s)) 1), s'. simpl. auto.
Qed.


(** C4. The pointer constructors differ on a nil pointer: [NewPtr(nil)] is
    Empty, [NewPtrOr(nil, fallback)] is Present(fallback).  On a pointer to
    a cell holding [v] both are Present(v).  Whatever the pointer and the
    fallback, an optional returned by [NewPtrOr] is never Empty. *)
Theorem NewPtr_NewPtrOr_asymmetry (fallback : T) (s : St) :
  NewPtr (nil_ptr : pointer T) s = Returned (NewEmpty, s)
  /\ (exists o s', NewPtrOr nil_ptr fallback s = Returned (o, s')
                   /\ Present s' o fallback)
  /\ (forall (a : addr) (v : T),
      cells s !! a = Some v ->
      (exists o s', NewPtr (ref a) s = Returned (o, s') /\ Present s' o v)
      /\ (exists o s', NewPtrOr (ref a) fallback s = Returned (o, s')
                       /\ Present s' o v))
  /\ (forall (ptr : pointer T) (o : Optional T) (s' : St),
      NewPtrOr ptr fallback s = Returned (o, s') ->
      ~ Empty o /\ exists v, Present s' o v).
Proof.
  split; [reflexivity|].
  split.
  { destruct (New_spec fallback s) as (o & s' & Hrun & HP & _).
    exists o, s'. split; [exact Hrun | exact HP]. }
  split.
  { intros a v Ha.
    destruct (New_spec v s) as (o & s' & Hrun & HP & _).
    split; exists o, s'; (split; [| exact HP]);
      unfold NewPtr, NewPtrOr; cbn [ptr_is_nil];
      rewrite (bind_Returned _ _ _ _ _ (deref_valid a v s Ha)); exact Hrun. }
  intros [|a] o s' Hrun; unfold NewPtrOr in Hrun; cbn [ptr_is_nil deref] in Hrun.
  - destruct (New_spec fallback s) as (o1 & s1 & Hrun1 & HP & _).
    rewrite Hrun1 in Hrun. injection Hrun as <- <-.
    split; [eapply Present_not_Empty; exact HP | exists fallback; exact HP].
  - unfold bind in Hrun. destruct (load a s) as [[v s0]|msg] eqn:Hload;
      [| discriminate].
    destruct (New_spec v s0) as (o1 & s1 & Hrun1 & HP & _).
    rewrite Hrun1 in Hrun. injection Hrun as <- <-.
    split; [eapply Present_not_Empty; exact HP | exists v; exact HP].
Qed.

End construction.

(** ** Access *)

Section access.
Context {St T : Type} `{!Store St T} `{!Zero T}.

(** C5. Reading an Empty optional is not an error: [Get] returns the zero
    value of [T] with false and [OrZero] returns the zero value, both
    without a panic and without touching the state.  On Present(v), [Get]
    returns [v] with true and [OrZero] returns [v]. *)
Theorem Get_OrZero_never_fail (o : Optional T) (s : St) :
  (Empty o ->
     Get o s = Returned ((zero, false), s) /\ OrZero o s = Returned (zero, s))
  /\ (forall v : T, Present s o v ->
     Get o s = Returned ((v, true), s) /\ OrZero o s = Returned (v, s)).
Proof.
  split.
  - intros ->. split; reflexivity.
  - intros v HP. pose proof (index_Present s o v HP) as Hidx.
    apply Present_header in HP as (b & -> & _).
    unfold Get, OrZero. cbn [is_nil].
    rewrite (bind_Returned _ _ _ _ _ Hidx). split; [reflexivity | exact Hidx].
Qed.

(** C9. [Ptr] on an Empty optional is the nil pointer.  On Present(v) it
    is a non-nil pointer to the optional's own cell, element 0 of its
    backing array, and dereferencing it yields [v].  That cell is the
    optional's copy of the value: [New] allocates it, so no address that
    existed before the construction refers to it, and after [NewPtr(p)] it
    is a cell other than the one [p] points to, which still holds [v]. *)
Theorem Ptr_contract (o : Optional T) (s : St) :
  (Empty o -> Ptr o s = Returned (nil_ptr, s))
  /\ (forall v : T, Present s o v ->
      exists a, Ptr o s = Returned (ref a, s)
                /\ o = mk_slice a 1
                /\ deref (ref a) s = Returned (v, s))
  /\ (forall v : T,
      exists o' s' a, New v s = Returned (o', s')
                      /\ Ptr o' s' = Returned (ref a, s')
                      /\ cells s !! a = None
                      /\ deref (ref a) s' = Returned (v, s'))
  /\ (forall (p : addr) (v : T), cells s !! p = Some v ->
      exists o' s' a, NewPtr (ref p) s = Returned (o', s')
                      /\ Ptr o' s' = Returned (ref a, s')
                      /\ a <> p
                      /\ deref (ref a) s' = Returned (v, s')
                      /\ deref (ref p) s' = Returned (v, s')).
Proof.
  assert (HPtr : forall (o1 : Optional T) (s1 : St) (v : T), Present s1 o1 v ->
             exists a, Ptr o1 s1 = Returned (ref a, s1)
                       /\ o1 = mk_slice a 1
                       /\ deref (ref a) s1 = Returned (v, s1)).
  { intros o1 s1 v HP.
    destruct (index_addr_Present s1 o1 v HP) as (a & Hrun & -> & Ha).
    exists a. split; [exact Hrun|]. split; [reflexivity|].
    apply deref_valid. exact Ha. }
  assert (HNewPtr : forall v : T,
             exists o' s' a, New v s = Returned (o', s')
                             /\ Ptr o' s' = Returned (ref a, s')
                             /\ a = length (cells s)
                             /\ grown_by s s' [v]
                             /\ deref (ref a) s' = Returned (v, s')).
  { intros v. destruct (New_spec v s) as (o' & s' & Hrun & HP & Ho' & Hg).
    destruct (HPtr o' s' v HP) as (a & HrunP & Hoa & Hd).
    exists o', s', a. rewrite Ho' in Hoa. injection Hoa as <-. auto. }
  split; [intros ->; reflexivity|].
  split; [intros v HP; apply HPtr; exact HP|].
  split.
  - intros v. destruct (HNewPtr v) as (o' & s' & a & Hrun & HrunP & -> & _ & Hd).
    exists o', s', (length (cells s)). split; [exact Hrun|].
    split; [exact HrunP|]. split; [| exact Hd].
    apply lookup_ge_None. reflexivity.
  - intros p v Hp.
    destruct (HNewPtr v) as (o' & s' & a & Hrun & HrunP & -> & Hg & Hd).
    exists o', s', (length (cells s)).
    split.
    { unfold NewPtr. cbn [ptr_is_nil].
      rewrite (bind_Returned _ _ _ _ _ (deref_valid p v s Hp)). exact Hrun. }
    split; [exact HrunP|].
    split; [apply lookup_lt_Some in Hp; lia|].
    split; [exact Hd|].
    apply deref_valid. eapply grown_keeps; eassumption.
Qed.

(** C6. [OrCall] is lazy.  On Present(v) it returns [v] and leaves the
    state as it was whatever the supplier [fn] would do, so [fn] is not
    invoked; on Empty it behaves exactly as one call of [fn].  With an
    invocation counter around [fn]: the counter does not move on Present,
    and advances by one on Empty. *)
Theorem OrCall_lazy (fn : unit -> M St T) (o : Optional T) (s : St) :
  (forall v : T, Present s o v -> OrCall o fn s = Returned (v, s))
  /\ (Empty o -> OrCall o fn s = fn tt s)
  /\ (forall (n : nat) (v : T), Present s o v ->
      OrCall o (counted fn) (n, s) = Returned (v, (n, s)))
  /\ (forall (n : nat) (r : T) (s' : St), Empty o ->
      fn tt s = Returned (r, s') ->
      OrCall o (counted fn) (n, s) = Returned (r, (S n, s'))).
Proof.
  split.
  { intros v HP. pose proof (index_Present s o v HP) as Hidx.
    apply Present_header in HP as (b & -> & _). exact Hidx. }
  split; [intros ->; reflexivity|].
  split.
  { intros n v HP. pose proof (index_Present (n, s) o v HP) as Hidx.
    apply Present_header in HP as (b & -> & _). exact Hidx. }
  intros n r s' -> Hfn. unfold OrCall, counted. cbn. rewrite Hfn. reflexivity.
Qed.

(** X15. The pointer is to the cell the optional reads: a value written through
    it is the value the optional holds afterwards. *)
Lemma Ptr_refers_to_the_held_cell (o : Optional T) (s s' : St) (v w : T) (a : addr) :
  Present s o v ->
  Ptr o s = Returned (ref a, s) ->
  store a w s = Returned (tt, s') ->
  Present s' o w.
Proof.
  intros HP HPtr Hst.
  destruct (index_addr_Present s o v HP) as (a' & HPtr' & -> & Ha).
  unfold Ptr in HPtr. cbn [is_nil] in HPtr.
  rewrite HPtr' in HPtr. injection HPtr as ->.
  unfold store in Hst. rewrite Ha in Hst. injection Hst as <-. unfold Present, held. rewrite cells_put.
  apply list_lookup_insert_eq. eapply lookup_lt_Some. exact Ha.
Qed.

End access.

(** ** Conditional pipelines *)

Section pipeline_props.
Context {St In Out : Type} `{!Store St In} `{!Store St Out}.

(** C2. [Map] on an Empty optional returns Empty and leaves the state as
    it was whatever [fn] would do, so [fn] is not invoked (an invocation
    counter around [fn] does not move).  On Present(v), with [fn(v)]
    returning [r], it returns Present(r), held in a freshly allocated
    cell, after one call of [fn]; for a function without effects [f] the
    result is Present(f v). *)
Theorem Map_contract (fn : In -> M St Out) (o : Optional In) (s : St) :
  (Empty o -> Map o fn s = Returned (NewEmpty, s))
  /\ (forall n : nat, Empty o ->
      Map o (counted fn) (n, s) = Returned (NewEmpty, (n, s)))
  /\ (forall (v : In) (r : Out) (s1 : St),
      Present s o v -> fn v s = Returned (r, s1) ->
      exists o' s2, Map o fn s = Returned (o', s2)
                    /\ Present s2 o' r
                    /\ grown_by s1 s2 [r])
  /\ (forall (n : nat) (v : In) (r : Out) (s1 : St),
      Present s o v -> fn v s = Returned (r, s1) ->
      exists o' s2, Map o (counted fn) (n, s) = Returned (o', (S n, s2))
                    /\ Present s2 o' r)
  /\ (forall (f : In -> Out) (v : In),
      Present s o v ->
      exists o' s2, Map o (pure f) s = Returned (o', s2)
                    /\ Present s2 o' (f v)).
Proof.
  assert (Hgen : forall (St' : Type) (SI : Store St' In) (SO : Store St' Out)
                   (g : In -> M St' Out) (t t1 : St') (v : In) (r : Out),
             Present t o v -> g v t = Returned (r, t1) ->
             exists o' t2, Map o g t = Returned (o', t2)
                           /\ Present t2 o' r
                           /\ grown_by t1 t2 [r]
                           /\ t2 = put_cells (cells t1 ++ [r]) t1).
  { intros St' SI SO g t t1 v r HP Hg.
    pose proof (index_Present t o v HP) as Hidx.
    apply Present_header in HP as (b & -> & _).
    destruct (slice_lit_one r t1) as (t2 & Hrun & Hgrow & HP2).
    eexists _, t2. unfold Map. cbn [is_nil].
    rewrite (bind_Returned _ _ _ _ _ Hidx), (bind_Returned _ _ _ _ _ Hg).
    split; [exact Hrun|]. split; [exact HP2|]. split; [exact Hgrow|].
    unfold slice_lit in Hrun. congruence. }
  split; [intros ->; reflexivity|].
  split; [intros n ->; reflexivity|].
  split.
  { intros v r s1 HP Hfn.
    destruct (Hgen St _ _ fn s s1 v r HP Hfn) as (o' & s2 & Hrun & HP2 & Hgrow & _).
    exists o', s2. auto. }
  split.
  { intros n v r s1 HP Hfn.
    assert (Hc : counted fn v (n, s) = Returned (r, (S n, s1))).
    { unfold counted. cbn. rewrite Hfn. reflexivity. }
    destruct (Hgen (nat * St)%type (store_snd nat St In) (store_snd nat St Out)
                (counted fn) (n, s) (S n, s1) v r HP Hc)
      as (o' & [m s2] & Hrun & HP2 & _ & [= -> _]).
    exists o', s2. split; [exact Hrun | exact HP2]. }
  intros f v HP.
  destruct (Hgen St _ _ (pure f) s s v (f v) HP eq_refl)
    as (o' & s2 & Hrun & HP2 & _).
  exists o', s2. auto.
Qed.

(** C3. [MapErr] on an Empty optional returns Empty with the nil error and
    leaves the state as it was whatever [fn] would do, so [fn] is not
    invoked.  On Present(v) it calls [fn(v)] once: when [fn] returns an
    error, the result is Empty with that same error value and nothing is
    allocated; when [fn] returns [r] with the nil error, the result is
    Present(r) with the nil error. *)
Theorem MapErr_contract {E : Type} (fn : In -> M St (Out * error E))
    (o : Optional In) (s : St) :
  (Empty o -> MapErr o fn s = Returned ((NewEmpty, None), s))
  /\ (forall n : nat, Empty o ->
      MapErr o (counted fn) (n, s) = Returned ((NewEmpty, None), (n, s)))
  /\ (forall (v : In) (r : Out) (e : E) (s1 : St),
      Present s o v -> fn v s = Returned ((r, Some e), s1) ->
      MapErr o fn s = Returned ((NewEmpty, Some e), s1)
      /\ forall n : nat,
          MapErr o (counted fn) (n, s) = Returned ((NewEmpty, Some e), (S n, s1)))
  /\ (forall (v : In) (r : Out) (s1 : St),
      Present s o v -> fn v s = Returned ((r, None), s1) ->
      exists o' s2, MapErr o fn s = Returned ((o', None), s2)
                    /\ Present s2 o' r
                    /\ grown_by s1 s2 [r]).
Proof.
  split; [intros ->; reflexivity|].
  split; [intros n ->; reflexivity|].
  split.
  { intros v r e s1 HP Hfn.
    pose proof (index_Present s o v HP) as Hidx.
    pose proof (fun n : nat =>
                  index_Present (Store0 := store_snd nat St In) (n, s) o v HP)
      as Hidxn.
    apply Present_header in HP as (b & -> & _).
    unfold MapErr. cbn [is_nil]. split.
    - rewrite (bind_Returned _ _ _ _ _ Hidx), (bind_Returned _ _ _ _ _ Hfn).
      reflexivity.
    - intros n. rewrite (bind_Returned _ _ _ _ _ (Hidxn n)).
      unfold bind, counted. cbn. rewrite Hfn. reflexivity. }
  intros v r s1 HP Hfn.
  pose proof (index_Present s o v HP) as Hidx.
  apply Present_header in HP as (b & -> & _).
  destruct (slice_lit_one r s1) as (s2 & Hrun & Hgrow & HP2).
  eexists _, s2. unfold MapErr. cbn [is_nil].
  rewrite (bind_Returned _ _ _ _ _ Hidx), (bind_Returned _ _ _ _ _ Hfn).
  cbn [snd fst]. rewrite (bind_Returned _ _ _ _ _ Hrun). auto.
Qed.

End pipeline_props.

(** ** JSON *)

Section json_props.
Context {St E T : Type} `{!Store St T} `{!Zero T} `{!json.Codec St E T}.

Lemma MarshalJSON_Present (o : Optional T) (v : T) (s : St) :
  Present s o v -> MarshalJSON o s = json.Marshal v s.
Proof.
  intros HP. pose proof (index_Present s o v HP) as Hidx.
  apply Present_header in HP as (b & -> & _).
  unfold MarshalJSON, Get. cbn [is_nil].
  unfold bind at 1. unfold bind at 1. rewrite Hidx. reflexivity.
Qed.

Lemma UnmarshalJSON_null (tgt : Optional T) (s : St) :
  UnmarshalJSON tgt "null" s = Returned ((NewEmpty, None), s).
Proof. reflexivity. Qed.

Lemma UnmarshalJSON_not_null (tgt : Optional T) (data : string) (s : St) :
  data <> "null" ->
  UnmarshalJSON tgt data s =
  (r <- json.Unmarshal data zero ;;
   match snd r with
   | Some err => ret (tgt, Some err)
   | None => o' <- New (fst r) ;; ret (o', None)
   end) s.
Proof.
  intros Hne. unfold UnmarshalJSON.
  apply String.eqb_neq in Hne. rewrite Hne. reflexivity.
Qed.

(** C1, as amended.  Empty encodes as [null] and [null] decodes to Empty,
    whatever the target held.  Present(v) encodes as [json.Marshal(v)]; when
    that encoding is not [null] and [json.Unmarshal] decodes it back to
    [v], decoding it restores Present(v).  When the encoding of [v] is
    [null], decoding it yields Empty. *)
Theorem json_round_trip_unless_null (tgt : Optional T) (s : St) :
  (MarshalJSON NewEmpty s = Returned (("null", None), s)
   /\ UnmarshalJSON tgt "null" s = Returned ((NewEmpty, None), s))
  /\ (forall (o : Optional T) (v : T) (data : string) (s1 s2 : St),
      Present s o v ->
      json.Marshal v s = Returned ((data, None), s1) ->
      data <> "null" ->
      json.Unmarshal data zero s1 = Returned ((v, None), s2) ->
      MarshalJSON o s = Returned ((data, None), s1)
      /\ exists o' s3, UnmarshalJSON tgt data s1 = Returned ((o', None), s3)
                       /\ Present s3 o' v
                       /\ grown_by s2 s3 [v])
  /\ (forall (o : Optional T) (v : T) (s1 : St),
      Present s o v ->
      json.Marshal v s = Returned (("null", None), s1) ->
      MarshalJSON o s = Returned (("null", None), s1)
      /\ UnmarshalJSON tgt "null" s1 = Returned ((NewEmpty, None), s1)).
Proof.
  split; [split; reflexivity|].
  split.
  - intros o v data s1 s2 HP Henc Hne Hdec.
    split; [rewrite (MarshalJSON_Present o v s HP); exact Henc|].
    destruct (New_spec v s2) as (o' & s3 & Hrun & HP' & _ & Hgrow).
    exists o', s3. rewrite (UnmarshalJSON_not_null tgt data s1 Hne).
    rewrite (bind_Returned _ _ _ _ _ Hdec). cbn [snd fst].
    rewrite (bind_Returned _ _ _ _ _ Hrun). auto.
  - intros o v s1 HP Henc.
    split; [rewrite (MarshalJSON_Present o v s HP); exact Henc | reflexivity].
Qed.

(** C10. A failed decode leaves the target alone: on data other than
    [null] for which [json.Unmarshal] returns an error, [UnmarshalJSON]
    returns that same error, the target is the optional it was, and the
    state is the one the decoder left: nothing is allocated or written
    after the decoder returns.  So a target that was Present(v) is still
    Present(v) when the decoder has only allocated. *)
Theorem UnmarshalJSON_failure_keeps_target (tgt : Optional T) (data : string)
    (s s' : St) (v' : T) (e : E) :
  data <> "null" ->
  json.Unmarshal data zero s = Returned ((v', Some e), s') ->
  UnmarshalJSON tgt data s = Returned ((tgt, Some e), s')
  /\ (forall (v : T) (vs : list T),
      grown_by s s' vs -> Present s tgt v -> Present s' tgt v).
Proof.
  intros Hne Hdec. split.
  - rewrite (UnmarshalJSON_not_null tgt data s Hne).
    rewrite (bind_Returned _ _ _ _ _ Hdec). reflexivity.
  - intros v vs Hgrow HP. eapply grown_keeps_Present; eassumption.
Qed.

End json_props.

(** C1, counterexample: [opt.New[*bool](nil)] is Present(nil), [Ok] is
    true.  Its encoding is [null], which decodes to Empty, [Ok] is false;
    [encoding/json] itself decodes [null] back to the nil pointer. *)
Lemma json_round_trip_fails_for_nil_pointer :
  New (nil_ptr : pointer bool) (([], []) : ptr_state)
  = Returned (mk_slice 0 1, ([], [nil_ptr]))
  /\ Present (([], [nil_ptr]) : ptr_state) (mk_slice 0 1) (nil_ptr : pointer bool)
  /\ MarshalJSON (E := json_error) (mk_slice 0 1 : Optional (pointer bool))
       (([], [nil_ptr]) : ptr_state)
     = Returned (("null", None), ([], [nil_ptr]))
  /\ UnmarshalJSON (E := json_error) (mk_slice 0 1 : Optional (pointer bool))
       "null" (([], [nil_ptr]) : ptr_state)
     = Returned ((NewEmpty, None), ([], [nil_ptr]))
  /\ json.Unmarshal (E := json_error) "null" (zero : pointer bool)
       (([], [nil_ptr]) : ptr_state)
     = Returned ((nil_ptr, None), ([], [nil_ptr]))
  /\ Ok (mk_slice 0 1 : Optional (pointer bool)) = true
  /\ Ok (NewEmpty : Optional (pointer bool)) = false
  /\ ~ round_trips (St := ptr_state) (E := json_error) (nil_ptr : pointer bool).
Proof.
  do 7 (split; [reflexivity|]).
  intros Hrt.
  destruct (Hrt ([], [nil_ptr]) (mk_slice 0 1) (mk_slice 0 1) eq_refl)
    as (data & s1 & o' & s2 & Henc & Hdec & HP).
  vm_compute in Henc. injection Henc as <- <-.
  vm_compute in Hdec. injection Hdec as <- <-.
  discriminate HP.
Qed.


(** ** The theorems at concrete inputs *)


Lemma NewPtr_NewPtrOr_asymmetry_witness :
  ([7] : list nat) !! 0 = Some 7
  /\ (exists o s', NewPtr (ref 0) [7] = Returned (o, s') /\ Present s' o 7)
  /\ (exists o s', NewPtrOr (ref 0) 9 [7] = Returned (o, s') /\ Present s' o 7)
  /\ NewPtrOr (nil_ptr : pointer nat) 9 [7] = Returned (mk_slice 1 1, [7; 9])
  /\ ~ Empty (mk_slice 1 1 : Optional nat).
Proof.
  pose proof (NewPtr_NewPtrOr_asymmetry (St := list nat) 9 [7])
    as (_ & _ & Hvalid & Hnever).
  split; [reflexivity|].
  destruct (Hvalid 0 7 eq_refl) as (HNewPtr & HNewPtrOr).
  split; [exact HNewPtr|]. split; [exact HNewPtrOr|].
  split; [reflexivity|].
  apply (Hnever nil_ptr (mk_slice 1 1) [7; 9] eq_refl).
Defined.

Lemma Get_OrZero_never_fail_witness :
  (Get (NewEmpty : Optional nat) [] = Returned ((0, false), [])
   /\ OrZero (NewEmpty : Optional nat) [] = Returned (0, []))
  /\ Present [7] (mk_slice 0 1 : Optional nat) 7
  /\ Get (mk_slice 0 1 : Optional nat) [7] = Returned ((7, true), [7])
  /\ OrZero (mk_slice 0 1 : Optional nat) [7] = Returned (7, [7]).
Proof.
  split.
  - apply (proj1 (Get_OrZero_never_fail (St := list nat) NewEmpty [])).
    reflexivity.
  - split; [reflexivity|].
    apply (proj2 (Get_OrZero_never_fail (St := list nat) (mk_slice 0 1) [7]) 7).
    reflexivity.
Defined.

Lemma Ptr_contract_witness :
  Ptr (NewEmpty : Optional nat) [7] = Returned (nil_ptr, [7])
  /\ Present [7] (mk_slice 0 1 : Optional nat) 7
  /\ (exists a, Ptr (mk_slice 0 1 : Optional nat) [7] = Returned (ref a, [7])
                /\ (mk_slice 0 1 : Optional nat) = mk_slice a 1
                /\ deref (ref a) [7] = Returned (7, [7])).
Proof.
  split.
  - apply (proj1 (Ptr_contract (St := list nat) NewEmpty [7])). reflexivity.
  - split; [reflexivity|].
    apply (proj1 (proj2 (Ptr_contract (St := list nat) (mk_slice 0 1) [7])) 7).
    reflexivity.
Defined.

Lemma OrCall_lazy_witness :
  Present [1000] (mk_slice 0 1 : Optional nat) 1000
  /\ OrCall (mk_slice 0 1) (counted two) (0, [1000]) = Returned (1000, (0, [1000]))
  /\ Empty (NewEmpty : Optional nat)
  /\ OrCall NewEmpty (counted two) (0, [1000]) = Returned (2, (1, [1000])).
Proof.
  split; [reflexivity|]. split.
  - apply (proj1 (proj2 (proj2 (OrCall_lazy (St := list nat) two (mk_slice 0 1) [1000])))
             0 1000).
    reflexivity.
  - split; [reflexivity|].
    apply (proj2 (proj2 (proj2 (OrCall_lazy (St := list nat) two NewEmpty [1000])))
             0 2 [1000]); reflexivity.
Defined.

Lemma Map_contract_witness :
  Empty (NewEmpty : Optional nat)
  /\ Map (NewEmpty : Optional nat) (counted succ_fn) (0, [41])
     = Returned (NewEmpty, (0, [41]))
  /\ Present [41] (mk_slice 0 1 : Optional nat) 41
  /\ succ_fn 41 [41] = Returned (42, [41])
  /\ (exists o' s2, Map (mk_slice 0 1) succ_fn [41] = Returned (o', s2)
                    /\ Present s2 o' 42
                    /\ grown_by [41] s2 [42]).
Proof.
  split; [reflexivity|]. split.
  - apply (proj1 (proj2 (Map_contract (St := list nat) succ_fn NewEmpty [41])) 0).
    reflexivity.
  - split; [reflexivity|]. split; [reflexivity|].
    apply (proj1 (proj2 (proj2 (Map_contract (St := list nat) succ_fn (mk_slice 0 1) [41])))
             41 42 [41]); reflexivity.
Defined.

Lemma MapErr_contract_witness :
  Present ((["value"], []) : conv_state) (mk_slice 0 1 : Optional string) "value"
  /\ MapErr (mk_slice 0 1 : Optional string) atoi ((["value"], []) : conv_state)
     = Returned ((NewEmpty, Some "invalid syntax"), (["value"], []))
  /\ Present ((["69"], []) : conv_state) (mk_slice 0 1 : Optional string) "69"
  /\ (exists o' s2,
        MapErr (mk_slice 0 1 : Optional string) atoi ((["69"], []) : conv_state)
        = Returned ((o', None), s2)
        /\ Present s2 o' 69
        /\ grown_by ((["69"], []) : conv_state) s2 [69])
  /\ MapErr (NewEmpty : Optional string) atoi ((["69"], []) : conv_state)
     = Returned ((NewEmpty, None), (["69"], [])).
Proof.
  split; [reflexivity|]. split.
  - apply (proj1 (proj2 (proj2 (MapErr_contract (St := conv_state) atoi
                                  (mk_slice 0 1) (["value"], []))))
             "value" 0 "invalid syntax" (["value"], [])); reflexivity.
  - split; [reflexivity|]. split.
    + apply (proj2 (proj2 (proj2 (MapErr_contract (St := conv_state) atoi
                                    (mk_slice 0 1) (["69"], []))))
               "69" 69 (["69"], [])); reflexivity.
    + apply (proj1 (MapErr_contract (St := conv_state) atoi NewEmpty (["69"], []))).
      reflexivity.
Defined.

Lemma json_round_trip_unless_null_witness :
  Present [true] (mk_slice 0 1 : Optional bool) true
  /\ json.Marshal (E := json_error) true [true] = Returned (("true", None), [true])
  /\ "true" <> "null"
  /\ json.Unmarshal (E := json_error) "true" (zero : bool) [true]
     = Returned ((true, None), [true])
  /\ MarshalJSON (E := json_error) (mk_slice 0 1 : Optional bool) [true]
     = Returned (("true", None), [true])
  /\ (exists o' s3,
        UnmarshalJSON (E := json_error) (NewEmpty : Optional bool) "true" [true]
        = Returned ((o', None), s3)
        /\ Present s3 o' true
        /\ grown_by [true] s3 [true]).
Proof.
  assert (Hne : "true" <> "null") by discriminate.
  split; [reflexivity|]. split; [reflexivity|]. split; [exact Hne|].
  split; [reflexivity|].
  apply (proj1 (proj2 (json_round_trip_unless_null (St := list bool)
                         (E := json_error) NewEmpty [true]))
           (mk_slice 0 1) true "true" [true] [true]);
    [reflexivity | reflexivity | exact Hne | reflexivity].
Defined.

Lemma UnmarshalJSON_failure_keeps_target_witness :
  "69" <> "null"
  /\ json.Unmarshal (E := json_error) "69" (zero : bool) [true]
     = Returned ((false, Some (decode_error "69")), [true])
  /\ UnmarshalJSON (mk_slice 0 1 : Optional bool) "69" [true]
     = Returned ((mk_slice 0 1, Some (decode_error "69")), [true])
  /\ Present [true] (mk_slice 0 1 : Optional bool) true.
Proof.
  assert (Hne : "69" <> "null") by discriminate.
  split; [exact Hne|]. split; [reflexivity|].
  pose proof (UnmarshalJSON_failure_keeps_target (St := list bool)
                (mk_slice 0 1) "69" [true] [true] false (decode_error "69")
                Hne eq_refl) as (Hrun & Hkept).
  split; [exact Hrun|].
  apply (Hkept true []); reflexivity.
Defined.

(** ** The tables of the package's tests *)

(** [TestOk]. *)
Example TestOk :
  Ok (NewEmpty : Optional string) = false
  /\ (o <- New "" ;; ret (Ok o)) ([] : list string) = Returned (true, [""])
  /\ (o <- New "string" ;; ret (Ok o)) ([] : list string) = Returned (true, ["string"])
  /\ (o <- NewPtr nil_ptr ;; ret (Ok o)) ["ptr to string"]
     = Returned (false, ["ptr to string"])
  /\ (o <- NewPtr (ref 0) ;; ret (Ok o)) ["ptr to string"]
     = Returned (true, ["ptr to string"; "ptr to string"]).
Proof. repeat split. Qed.

(** [TestGet]. *)
Example TestGet :
  Get (NewEmpty : Optional string) ([] : list string) = Returned (("", false), [])
  /\ (o <- New "" ;; Get o) ([] : list string) = Returned (("", true), [""])
  /\ (o <- New "string" ;; Get o) ([] : list string)
     = Returned (("string", true), ["string"])
  /\ (o <- NewPtr nil_ptr ;; Get o) ["ptr to string"]
     = Returned (("", false), ["ptr to string"])
  /\ (o <- NewPtr (ref 0) ;; Get o) ["ptr to string"]
     = Returned (("ptr to string", true), ["ptr to string"; "ptr to string"]).
Proof. repeat split. Qed.

(** [TestPtr]. *)
Example TestPtr :
  (o <- New "value" ;; p <- Ptr o ;; deref p) ([] : list string)
  = Returned ("value", ["value"])
  /\ Ptr (NewEmpty : Optional string) ([] : list string) = Returned (nil_ptr, []).
Proof. repeat split. Qed.

(** [TestOrCall], with the supplier counted. *)
Example TestOrCall :
  OrCall (NewEmpty : Optional nat) (counted two) (0, ([] : list nat))
  = Returned (2, (1, []))
  /\ (o <- New 1000 ;; OrCall o (counted two)) (0, ([] : list nat))
     = Returned (1000, (0, [1000])).
Proof. repeat split. Qed.

(** [TestMapErr]: the valid numeral, the invalid one, the empty input. *)
Example TestMapErr :
  (i <- New "69" ;; r <- MapErr i atoi ;; v <- OrZero (fst r) ;; ret (v, snd r))
    (([], []) : conv_state)
  = Returned ((69, None), (["69"], [69]))
  /\ (i <- New "value" ;; r <- MapErr i atoi ;; v <- OrZero (fst r) ;; ret (v, snd r))
       (([], []) : conv_state)
     = Returned ((0, Some "invalid syntax"), (["value"], []))
  /\ MapErr (NewEmpty : Optional string) (counted atoi) (0, (([], []) : conv_state))
     = Returned ((NewEmpty, None), (0, ([], []))).
Proof. repeat split. Qed.

(** [TestJSON], at one field of type [Optional[bool]]. *)
Example TestJSON :
  MarshalJSON (E := json_error) (NewEmpty : Optional bool) ([] : list bool)
  = Returned (("null", None), [])
  /\ (o <- New true ;; MarshalJSON (E := json_error) o) ([] : list bool)
     = Returned (("true", None), [true])
  /\ (r <- UnmarshalJSON (E := json_error) (NewEmpty : Optional bool) "true" ;;
      Get (fst r)) ([] : list bool)
     = Returned ((true, true), [true])
  /\ (r <- UnmarshalJSON (E := json_error) (mk_slice 0 1 : Optional bool) "null" ;;
      ret (Ok (fst r))) [true]
     = Returned (false, [true]).
Proof. repeat split. Qed.

(** ** Further properties of the constructors *)

Lemma counted_Returned {St A B : Type} (fn : A -> M St B) (x : A) (n : nat)
    (s s' : St) (b : B) :
  fn x s = Returned (b, s') -> counted fn x (n, s) = Returned (b, (S n, s')).
Proof. intros Hfn. unfold counted. cbn. rewrite Hfn. reflexivity. Qed.

Section more_construction.
Context {St T : Type} `{!Store St T}.

(** X1. [NewIf] calls the predicate once, on [v]: Present(v) in a fresh cell
    when it answers true, Empty with nothing allocated when it answers
    false; a panic of the predicate is the panic of [NewIf]. *)
Theorem NewIf_contract (v : T) (fn : T -> M St bool) (s s1 : St) :
  (fn v s = Returned (true, s1) ->
     exists o s2, NewIf v fn s = Returned (o, s2)
                  /\ Present s2 o v /\ grown_by s1 s2 [v])
  /\ (fn v s = Returned (false, s1) -> NewIf v fn s = Returned (NewEmpty, s1))
  /\ (forall (n : nat) (b : bool), fn v s = Returned (b, s1) ->
        exists o s2, NewIf v (counted fn) (n, s) = Returned (o, (S n, s2)))
  /\ (forall msg : string, fn v s = Panicked msg -> NewIf v fn s = Panicked msg).
Proof.
  split.
  { intros Hfn. destruct (New_spec v s1) as (o & s2 & Hrun & HP & _ & Hg).
    exists o, s2. unfold NewIf. rewrite (bind_Returned _ _ _ _ _ Hfn). auto. }
  split.
  { intros Hfn. unfold NewIf. rewrite (bind_Returned _ _ _ _ _ Hfn). reflexivity. }
  split.
  { intros n b Hfn. unfold NewIf.
    rewrite (bind_Returned _ _ _ _ _ (counted_Returned fn v n s s1 b Hfn)).
    destruct b; eexists _, _; reflexivity. }
  intros msg Hfn. unfold NewIf. apply bind_Panicked. exact Hfn.
Qed.

(** X2. [NewPtrIf] on a nil pointer is Empty and the predicate is not called.
    On a pointer to a cell holding [v] it calls the predicate on [v]:
    Empty when it answers false; when it answers true, the pointer is read
    a second time and the optional is Present with the value the cell
    holds then. *)
Theorem NewPtrIf_contract (fn : T -> M St bool) (s : St) :
  NewPtrIf nil_ptr fn s = Returned (NewEmpty, s)
  /\ (forall n : nat, NewPtrIf nil_ptr (counted fn) (n, s) = Returned (NewEmpty, (n, s)))
  /\ (forall (a : addr) (v : T) (s1 : St),
        cells s !! a = Some v -> fn v s = Returned (false, s1) ->
        NewPtrIf (ref a) fn s = Returned (NewEmpty, s1))
  /\ (forall (a : addr) (v v' : T) (s1 : St),
        cells s !! a = Some v -> fn v s = Returned (true, s1) ->
        cells s1 !! a = Some v' ->
        exists o s2, NewPtrIf (ref a) fn s = Returned (o, s2)
                     /\ Present s2 o v' /\ grown_by s1 s2 [v']).
Proof.
  split; [reflexivity|]. split; [reflexivity|]. split.
  { intros a v s1 Ha Hfn. unfold NewPtrIf. cbn [ptr_is_nil].
    rewrite (bind_Returned _ _ _ _ _ (deref_valid a v s Ha)).
    rewrite (bind_Returned _ _ _ _ _ Hfn). reflexivity. }
  intros a v v' s1 Ha Hfn Ha'.
  destruct (New_spec v' s1) as (o & s2 & Hrun & HP & _ & Hg).
  exists o, s2. unfold NewPtrIf. cbn [ptr_is_nil].
  rewrite (bind_Returned _ _ _ _ _ (deref_valid a v s Ha)).
  rewrite (bind_Returned _ _ _ _ _ Hfn). cbn [negb].
  rewrite (bind_Returned _ _ _ _ _ (deref_valid a v' s1 Ha')). auto.
Qed.

(** X3. [NewPtr] and [NewPtrOr] copy: a later write through the pointer they
    were given does not change what the optional holds. *)
Theorem NewPtr_copy_is_independent (a : addr) (v w fallback : T) (s : St) :
  cells s !! a = Some v ->
  (exists o s1 s2, NewPtr (ref a) s = Returned (o, s1)
                   /\ store a w s1 = Returned (tt, s2)
                   /\ deref (ref a) s2 = Returned (w, s2)
                   /\ Present s2 o v)
  /\ (exists o s1 s2, NewPtrOr (ref a) fallback s = Returned (o, s1)
                      /\ store a w s1 = Returned (tt, s2)
                      /\ deref (ref a) s2 = Returned (w, s2)
                      /\ Present s2 o v).
Proof.
  intros Ha.
  assert (Hcopy : exists o s1 s2,
             (v0 <- deref (ref a) ;; New v0) s = Returned (o, s1)
             /\ store a w s1 = Returned (tt, s2)
             /\ deref (ref a) s2 = Returned (w, s2)
             /\ Present s2 o v).
  { pose proof (lookup_lt_Some _ _ _ Ha) as Hlt.
    exists (mk_slice (length (cells s)) 1),
           (put_cells (cells s ++ [v]) s),
           (put_cells (<[a:=w]> (cells s ++ [v])) (put_cells (cells s ++ [v]) s)).
    split.
    { rewrite (bind_Returned _ _ _ _ _ (deref_valid a v s Ha)). reflexivity. }
    split.
    { unfold store. rewrite cells_put, (lookup_app_l_Some _ _ _ _ Ha). reflexivity. }
    split.
    { apply deref_valid. rewrite cells_put. apply list_lookup_insert_eq.
      rewrite length_app. lia. }
    unfold Present, held. rewrite cells_put.
    rewrite list_lookup_insert_ne by lia.
    apply list_lookup_middle. reflexivity. }
  split; exact Hcopy.
Qed.

End more_construction.

Lemma NewIf_contract_witness :
  NewIf 7 (pure Nat.even) ([] : list nat) = Returned (NewEmpty, [])
  /\ (exists o s2, NewIf 8 (pure Nat.even) ([] : list nat) = Returned (o, s2)
                   /\ Present s2 o 8 /\ grown_by ([] : list nat) s2 [8]).
Proof.
  split.
  - apply (proj1 (proj2 (NewIf_contract (St := list nat) 7 (pure Nat.even) [] []))).
    reflexivity.
  - apply (proj1 (NewIf_contract (St := list nat) 8 (pure Nat.even) [] [])).
    reflexivity.
Defined.

Lemma NewPtrIf_contract_witness :
  ([7] : list nat) !! 0 = Some 7
  /\ overwrite_then_accept 7 [7] = Returned (true, [99])
  /\ (exists o s2, NewPtrIf (ref 0) overwrite_then_accept [7] = Returned (o, s2)
                   /\ Present s2 o 99 /\ grown_by [99] s2 [99])
  /\ NewPtrIf (ref 0) (pure Nat.even) [7] = Returned (NewEmpty, [7]).
Proof.
  pose proof (NewPtrIf_contract (St := list nat) overwrite_then_accept [7])
    as (_ & _ & _ & Hyes).
  pose proof (NewPtrIf_contract (St := list nat) (pure Nat.even) [7])
    as (_ & _ & Hno & _).
  split; [reflexivity|]. split; [reflexivity|]. split.
  - apply (Hyes 0 7 99 [99]); reflexivity.
  - apply (Hno 0 7 [7]); reflexivity.
Defined.

Lemma NewPtr_copy_is_independent_witness :
  ([7] : list nat) !! 0 = Some 7
  /\ (exists o s1 s2, NewPtr (ref 0) [7] = Returned (o, s1)
                      /\ store 0 99 s1 = Returned (tt, s2)
                      /\ deref (ref 0) s2 = Returned (99, s2)
                      /\ Present s2 o 7).
Proof.
  split; [reflexivity|].
  refine (proj1 (NewPtr_copy_is_independent (St := list nat) 0 7 99 0 [7] _)).
  reflexivity.
Defined.

(** ** Mapped constructors and accessors *)

Section mapped_props.
Context {St In Out : Type} `{!Store St In} `{!Store St Out}.

(** X4. [NewMap] always builds a Present optional, holding [fn(v)], and never
    Empty.  [NewPtrMap] on a nil pointer is Empty and [fn] is not called;
    on a pointer to a cell holding [v] it is Present, holding [fn(v)]. *)
Theorem NewMap_NewPtrMap_contract (fn : In -> M St Out) (s : St) :
  (forall (v : In) (r : Out) (s1 : St),
      fn v s = Returned (r, s1) ->
      exists o s2, NewMap v fn s = Returned (o, s2)
                   /\ Present s2 o r /\ grown_by s1 s2 [r])
  /\ (forall (v : In) (o : Optional Out) (s2 : St),
      NewMap v fn s = Returned (o, s2) -> ~ Empty o)
  /\ NewPtrMap nil_ptr fn s = Returned (NewEmpty, s)
  /\ (forall n : nat,
      NewPtrMap nil_ptr (counted fn) (n, s) = Returned (NewEmpty, (n, s)))
  /\ (forall (a : addr) (v : In) (r : Out) (s1 : St),
      cells s !! a = Some v -> fn v s = Returned (r, s1) ->
      exists o s2, NewPtrMap (ref a) fn s = Returned (o, s2)
                   /\ Present s2 o r /\ grown_by s1 s2 [r]).
Proof.
  split.
  { intros v r s1 Hfn. destruct (New_spec r s1) as (o & s2 & Hrun & HP & _ & Hg).
    exists o, s2. unfold NewMap. rewrite (bind_Returned _ _ _ _ _ Hfn). auto. }
  split.
  { intros v o s2 Hrun. unfold NewMap in Hrun.
    apply bind_inv in Hrun as (r & s1 & _ & Hrun).
    apply slice_lit_Present in Hrun. eapply Present_not_Empty. exact Hrun. }
  split; [reflexivity|]. split; [reflexivity|].
  intros a v r s1 Ha Hfn. destruct (New_spec r s1) as (o & s2 & Hrun & HP & _ & Hg).
  exists o, s2. unfold NewPtrMap. cbn [ptr_is_nil].
  rewrite (bind_Returned _ _ _ _ _ (deref_valid a v s Ha)).
  rewrite (bind_Returned _ _ _ _ _ Hfn). auto.
Qed.

(** X5. With a function without effects, a mapped constructor holds what the
    plain constructor followed by [Map] holds: [NewMap(v, f)] and
    [Map(New(v), f)] are Present(f v), [NewPtrMap(p, f)] and
    [Map(NewPtr(p), f)] are both Empty on nil and both Present(f v) on a
    pointer to [v]. *)
Theorem mapped_constructor_is_constructor_then_Map (f : In -> Out) (s : St) :
  (forall v : In,
      exists o1 s1 o2 s2,
        NewMap v (pure f) s = Returned (o1, s1)
        /\ (o <- New v ;; Map o (pure f)) s = Returned (o2, s2)
        /\ Present s1 o1 (f v) /\ Present s2 o2 (f v))
  /\ (NewPtrMap nil_ptr (pure f) s = Returned (NewEmpty, s)
      /\ (o <- NewPtr nil_ptr ;; Map o (pure f)) s = Returned (NewEmpty, s))
  /\ (forall (a : addr) (v : In),
      cells s !! a = Some v ->
      exists o1 s1 o2 s2,
        NewPtrMap (ref a) (pure f) s = Returned (o1, s1)
        /\ (o <- NewPtr (ref a) ;; Map o (pure f)) s = Returned (o2, s2)
        /\ Present s1 o1 (f v) /\ Present s2 o2 (f v)).
Proof.
  assert (HMapNew : forall v : In,
             exists o2 s2, (o <- New v ;; Map o (pure f)) s = Returned (o2, s2)
                           /\ Present s2 o2 (f v)).
  { intros v. destruct (New_spec v s) as (o & s' & Hrun & HP & _ & _).
    pose proof (index_Present s' o v HP) as Hidx.
    destruct (slice_lit_one (f v) s') as (s2 & Hlit & _ & HP2).
    eexists _, s2. rewrite (bind_Returned _ _ _ _ _ Hrun).
    apply Present_header in HP as (b & -> & _). unfold Map. cbn [is_nil].
    rewrite (bind_Returned _ _ _ _ _ Hidx). unfold pure at 1.
    rewrite (bind_Returned _ _ s' s' (f v) eq_refl).
    split; [exact Hlit | exact HP2]. }
  split.
  { intros v. destruct (HMapNew v) as (o2 & s2 & Hrun2 & HP2).
    destruct (New_spec (f v) s) as (o1 & s1 & Hrun1 & HP1 & _ & _).
    exists o1, s1, o2, s2. auto. }
  split; [split; reflexivity|].
  intros a v Ha. destruct (HMapNew v) as (o2 & s2 & Hrun2 & HP2).
  destruct (New_spec (f v) s) as (o1 & s1 & Hrun1 & HP1 & _ & _).
  exists o1, s1, o2, s2.
  split.
  { unfold NewPtrMap. cbn [ptr_is_nil].
    rewrite (bind_Returned _ _ _ _ _ (deref_valid a v s Ha)). exact Hrun1. }
  split; [| auto].
  unfold NewPtr. cbn [ptr_is_nil]. unfold bind at 1. unfold bind at 1.
  rewrite (deref_valid a v s Ha). exact Hrun2.
Qed.

(** X6. [GetMap] on Empty returns the zero value of the result type with false
    and does not call [fn]; on Present(v) it returns [fn(v)] with true and
    allocates nothing.  With a function without effects it returns what
    [Get] returns on the result of [Map]. *)
Theorem GetMap_contract `{!Zero Out} (fn : In -> M St Out) (o : Optional In) (s : St) :
  (Empty o -> GetMap o fn s = Returned ((zero, false), s))
  /\ (forall n : nat, Empty o ->
      GetMap o (counted fn) (n, s) = Returned ((zero, false), (n, s)))
  /\ (forall (v : In) (r : Out) (s1 : St),
      Present s o v -> fn v s = Returned (r, s1) ->
      GetMap o fn s = Returned ((r, true), s1))
  /\ (forall (f : In -> Out) (v : In),
      Present s o v ->
      GetMap o (pure f) s = Returned ((f v, true), s)
      /\ exists s', (m <- Map o (pure f) ;; Get m) s = Returned ((f v, true), s'))
  /\ (forall f : In -> Out, Empty o ->
      (m <- Map o (pure f) ;; Get m) s = GetMap o (pure f) s).
Proof.
  assert (Hrun : forall (v : In) (r : Out) (s1 : St),
             Present s o v -> fn v s = Returned (r, s1) ->
             GetMap o fn s = Returned ((r, true), s1)).
  { intros v r s1 HP Hfn. pose proof (index_Present s o v HP) as Hidx.
    apply Present_header in HP as (b & -> & _). unfold GetMap. cbn [is_nil].
    rewrite (bind_Returned _ _ _ _ _ Hidx), (bind_Returned _ _ _ _ _ Hfn).
    reflexivity. }
  split; [intros ->; reflexivity|].
  split; [intros n ->; reflexivity|].
  split; [exact Hrun|].
  split; [| intros f ->; reflexivity].
  intros f v HP.
  pose proof (index_Present s o v HP) as Hidx.
  destruct (slice_lit_one (f v) s) as (s' & Hlit & _ & HP').
  pose proof (index_Present s' _ (f v) HP') as Hidx'.
  apply Present_header in HP as (b & -> & _).
  split.
  { unfold GetMap. cbn [is_nil].
    rewrite (bind_Returned _ _ _ _ _ Hidx). reflexivity. }
  exists s'.
  assert (HMap : Map (mk_slice b 1) (pure f) s
                 = Returned (mk_slice (length (cells (T := Out) s)) 1, s')).
  { unfold Map. cbn [is_nil]. rewrite (bind_Returned _ _ _ _ _ Hidx).
    unfold pure at 1. rewrite (bind_Returned _ _ s s (f v) eq_refl). exact Hlit. }
  rewrite (bind_Returned _ _ _ _ _ HMap). unfold Get. cbn [is_nil].
  rewrite (bind_Returned _ _ _ _ _ Hidx'). reflexivity.
Qed.

(** X7. [PtrMap] on Empty is the nil pointer and [fn] is not called.  On
    Present(v) it is a pointer to a new variable holding [fn(v)]: an
    address that was not allocated before. *)
Theorem PtrMap_contract `{!Zero In} (fn : In -> M St Out) (o : Optional In) (s : St) :
  (Empty o -> PtrMap o fn s = Returned (nil_ptr, s))
  /\ (forall n : nat, Empty o ->
      PtrMap o (counted fn) (n, s) = Returned (nil_ptr, (n, s)))
  /\ (forall (v : In) (r : Out) (s1 : St),
      Present s o v -> fn v s = Returned (r, s1) ->
      exists a s2, PtrMap o fn s = Returned (ref a, s2)
                   /\ cells (T := Out) s1 !! a = None
                   /\ grown_by s1 s2 [r]
                   /\ deref (ref a) s2 = Returned (r, s2)).
Proof.
  split; [intros ->; reflexivity|].
  split; [intros n ->; reflexivity|].
  intros v r s1 HP Hfn. pose proof (index_Present s o v HP) as Hidx.
  apply Present_header in HP as (b & -> & _).
  exists (length (cells (T := Out) s1)), (put_cells (cells s1 ++ [r]) s1).
  split.
  { unfold PtrMap, Get. cbn [is_nil].
    unfold bind at 1. unfold bind at 1. rewrite Hidx. cbn [ret snd fst].
    rewrite (bind_Returned _ _ _ _ _ Hfn). reflexivity. }
  split; [apply lookup_ge_None; reflexivity|].
  split; [unfold grown_by; rewrite cells_put; reflexivity|].
  apply deref_valid. rewrite cells_put. apply list_lookup_middle. reflexivity.
Qed.

End mapped_props.

Lemma NewMap_NewPtrMap_contract_witness :
  succ_fn 41 ([41] : list nat) = Returned (42, [41])
  /\ (exists o s2, NewMap 41 succ_fn ([41] : list nat) = Returned (o, s2)
                   /\ Present s2 o 42 /\ grown_by ([41] : list nat) s2 [42])
  /\ ([41] : list nat) !! 0 = Some 41
  /\ (exists o s2, NewPtrMap (ref 0) succ_fn ([41] : list nat) = Returned (o, s2)
                   /\ Present s2 o 42 /\ grown_by ([41] : list nat) s2 [42]).
Proof.
  pose proof (NewMap_NewPtrMap_contract (St := list nat) succ_fn [41])
    as (HNewMap & _ & _ & _ & HNewPtrMap).
  split; [reflexivity|]. split; [apply (HNewMap 41 42 [41]); reflexivity|].
  split; [reflexivity|]. apply (HNewPtrMap 0 41 42 [41]); reflexivity.
Defined.

Lemma mapped_constructor_is_constructor_then_Map_witness :
  ([41] : list nat) !! 0 = Some 41
  /\ (exists o1 s1 o2 s2,
        NewPtrMap (ref 0) (pure S) ([41] : list nat) = Returned (o1, s1)
        /\ (o <- NewPtr (ref 0) ;; Map o (pure S)) ([41] : list nat) = Returned (o2, s2)
        /\ Present s1 o1 42 /\ Present s2 o2 42).
Proof.
  split; [reflexivity|].
  apply (proj2 (proj2 (mapped_constructor_is_constructor_then_Map
                         (St := list nat) S [41])) 0 41).
  reflexivity.
Defined.

Lemma GetMap_contract_witness :
  Empty (NewEmpty : Optional nat)
  /\ GetMap (NewEmpty : Optional nat) (counted succ_fn) (0, [41])
     = Returned ((0, false), (0, [41]))
  /\ Present [41] (mk_slice 0 1 : Optional nat) 41
  /\ GetMap (mk_slice 0 1 : Optional nat) succ_fn [41] = Returned ((42, true), [41]).
Proof.
  pose proof (GetMap_contract (St := list nat) succ_fn NewEmpty [41])
    as (_ & Hempty & _).
  pose proof (GetMap_contract (St := list nat) succ_fn (mk_slice 0 1) [41])
    as (_ & _ & Hpresent & _).
  split; [reflexivity|]. split; [apply (Hempty 0); reflexivity|].
  split; [reflexivity|]. apply (Hpresent 41 42 [41]); reflexivity.
Defined.

Lemma PtrMap_contract_witness :
  PtrMap (NewEmpty : Optional nat) succ_fn [41] = Returned (nil_ptr, [41])
  /\ Present [41] (mk_slice 0 1 : Optional nat) 41
  /\ (exists a s2, PtrMap (mk_slice 0 1 : Optional nat) succ_fn [41]
                   = Returned (ref a, s2)
                   /\ ([41] : list nat) !! a = None
                   /\ grown_by ([41] : list nat) s2 [42]
                   /\ deref (ref a) s2 = Returned (42, s2)).
Proof.
  pose proof (PtrMap_contract (St := list nat) succ_fn NewEmpty [41])
    as (Hempty & _).
  pose proof (PtrMap_contract (St := list nat) succ_fn (mk_slice 0 1) [41])
    as (_ & _ & Hpresent).
  split; [apply Hempty; reflexivity|]. split; [reflexivity|].
  apply (Hpresent 41 42 [41]); reflexivity.
Defined.

(** ** Further properties of the accessors *)

Section more_access.
Context {St T : Type} `{!Store St T} `{!Zero T}.

(** X8. [Or] returns the fallback on Empty and the held value on Present, and
    leaves the state as it was.  On every optional and state, [OrZero] is
    [Or] with the zero value and [OrCall] with a supplier that returns [d]
    is [Or] with [d]. *)
Theorem Or_OrZero_OrCall_agree (o : Optional T) (d : T) (s : St) :
  (Empty o -> Or o d s = Returned (d, s))
  /\ (forall v : T, Present s o v -> Or o d s = Returned (v, s))
  /\ OrZero o s = Or o zero s
  /\ OrCall o (fun _ => ret d) s = Or o d s.
Proof.
  split; [intros ->; reflexivity|]. split.
  { intros v HP. pose proof (index_Present s o v HP) as Hidx.
    apply Present_header in HP as (b & -> & _). exact Hidx. }
  split; destruct o; reflexivity.
Qed.

(** X9. [Call] on Empty does nothing and does not call [f]; on Present(v) it
    is one call of [f] on [v]. *)
Theorem Call_contract (f : T -> M St unit) (o : Optional T) (s : St) :
  (Empty o -> Call o f s = Returned (tt, s))
  /\ (forall n : nat, Empty o -> Call o (counted f) (n, s) = Returned (tt, (n, s)))
  /\ (forall v : T, Present s o v -> Call o f s = f v s)
  /\ (forall (n : nat) (v : T) (s1 : St),
      Present s o v -> f v s = Returned (tt, s1) ->
      Call o (counted f) (n, s) = Returned (tt, (S n, s1))).
Proof.
  split; [intros ->; reflexivity|].
  split; [intros n ->; reflexivity|].
  split.
  { intros v HP. pose proof (index_Present s o v HP) as Hidx.
    apply Present_header in HP as (b & -> & _). unfold Call. cbn [is_nil negb].
    apply bind_Returned. exact Hidx. }
  intros n v s1 HP Hf.
  pose proof (index_Present (Store0 := store_snd nat St T) (n, s) o v HP) as Hidx.
  apply Present_header in HP as (b & -> & _). unfold Call. cbn [is_nil negb].
  rewrite (bind_Returned _ _ _ _ _ Hidx). apply counted_Returned. exact Hf.
Qed.

(** X10. On an optional in one of the two states the accessors do not panic
    and leave the state as it was; the flag of [Get] is the answer of
    [Ok], and [Ptr] is nil exactly when [Ok] answers false. *)
Theorem accessors_on_two_states (o : Optional T) (s : St) :
  two_states s o ->
  (exists v, Get o s = Returned ((v, Ok o), s))
  /\ (exists p, Ptr o s = Returned (p, s) /\ ptr_is_nil p = negb (Ok o))
  /\ (forall d : T, exists x, Or o d s = Returned (x, s))
  /\ (exists x, OrZero o s = Returned (x, s)).
Proof.
  intros [-> | (v & HP)].
  - split; [exists zero; reflexivity|].
    split; [exists nil_ptr; split; reflexivity|].
    split; [intros d; exists d; reflexivity | exists zero; reflexivity].
  - pose proof (index_Present s o v HP) as Hidx.
    destruct (index_addr_Present s o v HP) as (a & Haddr & _ & _).
    apply Present_header in HP as (b & -> & _).
    split.
    { exists v. unfold Get. cbn [is_nil].
      rewrite (bind_Returned _ _ _ _ _ Hidx). reflexivity. }
    split; [exists (ref a); split; [exact Haddr | reflexivity]|].
    split; [intros d; exists v; exact Hidx | exists v; exact Hidx].
Qed.

(** X11. A non-nil slice of length zero ([Optional[T]{}], which no function of
    the package returns) holds nothing, yet [Ok] answers true for it, and
    every accessor that reads the value panics on the bounds check. *)
Theorem zero_length_optional_panics (b : addr) (d : T) (fn : unit -> M St T)
    (f : T -> M St unit) (s : St) :
  is_nil (mk_slice b 0 : Optional T) = false
  /\ held s (mk_slice b 0 : Optional T) = None
  /\ Ok (mk_slice b 0 : Optional T) = true
  /\ Get (mk_slice b 0) s = Panicked "index out of range"
  /\ Ptr (mk_slice b 0 : Optional T) s = Panicked "index out of range"
  /\ Or (mk_slice b 0) d s = Panicked "index out of range"
  /\ OrZero (mk_slice b 0 : Optional T) s = Panicked "index out of range"
  /\ OrCall (mk_slice b 0) fn s = Panicked "index out of range"
  /\ Call (mk_slice b 0) f s = Panicked "index out of range".
Proof. repeat split. Qed.

(** X12. From an optional to a pointer and back: [NewPtr(o.Ptr())] is Empty
    when [o] is, and Present(v) when [o] is Present(v), in a cell of its
    own, [o] still holding [v]. *)
Theorem Ptr_NewPtr_round_trip (o : Optional T) (s : St) :
  (Empty o -> (p <- Ptr o ;; NewPtr p) s = Returned (NewEmpty, s))
  /\ (forall v : T, Present s o v ->
      exists o' s', (p <- Ptr o ;; NewPtr p) s = Returned (o', s')
                    /\ Present s' o' v
                    /\ Present s' o v
                    /\ o' <> o).
Proof.
  split; [intros ->; reflexivity|].
  intros v HP.
  destruct (index_addr_Present s o v HP) as (a & Haddr & -> & Ha).
  destruct (New_spec v s) as (o' & s' & Hrun & HP' & -> & Hg).
  eexists _, s'. split.
  { unfold Ptr. cbn [is_nil]. rewrite (bind_Returned _ _ _ _ _ Haddr).
    unfold NewPtr. cbn [ptr_is_nil].
    rewrite (bind_Returned _ _ _ _ _ (deref_valid a v s Ha)). exact Hrun. }
  split; [exact HP'|].
  split; [eapply grown_keeps_Present; eassumption|].
  apply lookup_lt_Some in Ha. intros [= Heq]. lia.
Qed.

(** X13. From an optional to a safe pair and back: [NewSafe(o.Get())] is Empty
    when [o] is and Present(v) when [o] is Present(v).  The other way,
    [Get] on [NewSafe(v, ok)] returns [v] with true when [ok], and the zero
    value with false otherwise: the value given with false is dropped. *)
Theorem Get_NewSafe_round_trip (o : Optional T) (s : St) :
  (Empty o -> (r <- Get o ;; NewSafe (fst r) (snd r)) s = Returned (NewEmpty, s))
  /\ (forall v : T, Present s o v ->
      exists o' s', (r <- Get o ;; NewSafe (fst r) (snd r)) s = Returned (o', s')
                    /\ Present s' o' v /\ Present s' o v)
  /\ (forall (v : T) (ok : bool),
      exists s', (o' <- NewSafe v ok ;; Get o') s
                 = Returned ((if ok then v else zero, ok), s')).
Proof.
  split; [intros ->; reflexivity|]. split.
  { intros v HP. pose proof (index_Present s o v HP) as Hidx.
    destruct (New_spec v s) as (o' & s' & Hrun & HP' & _ & Hg).
    exists o', s'. split.
    - apply Present_header in HP as (b & -> & _). unfold Get. cbn [is_nil].
      unfold bind at 1. unfold bind at 1. rewrite Hidx. exact Hrun.
    - split; [exact HP' | eapply grown_keeps_Present; eassumption]. }
  intros v [|].
  - destruct (New_spec v s) as (o' & s' & Hrun & HP' & -> & _).
    exists s'. unfold New in Hrun. cbn [NewSafe].
    rewrite (bind_Returned _ _ _ _ _ Hrun). unfold Get. cbn [is_nil].
    rewrite (bind_Returned _ _ _ _ _ (index_Present _ _ _ HP')). reflexivity.
  - exists s. reflexivity.
Qed.

(** X14. The pointer [PtrMap] returns is not into the optional, unlike the one
    [Ptr] returns: a value written through it leaves what the optional
    holds as it was. *)
Theorem PtrMap_pointer_is_not_into_the_optional (fn : T -> M St T)
    (o : Optional T) (v r : T) (s s1 : St) :
  Present s o v -> fn v s = Returned (r, s1) -> Present s1 o v ->
  exists p s2, PtrMap o fn s = Returned (ref p, s2)
               /\ Present s2 o v
               /\ forall (w : T) (s3 : St),
                    store p w s2 = Returned (tt, s3) ->
                    deref (ref p) s3 = Returned (w, s3) /\ Present s3 o v.
Proof.
  intros HP Hfn HP1. pose proof (index_Present s o v HP) as Hidx.
  apply Present_header in HP1 as (b & -> & Hb).
  pose proof (lookup_lt_Some _ _ _ Hb) as Hlt.
  exists (length (cells s1)), (put_cells (cells s1 ++ [r]) s1).
  split.
  { unfold PtrMap, Get. cbn [is_nil].
    unfold bind at 1. unfold bind at 1. rewrite Hidx. cbn [ret snd fst].
    rewrite (bind_Returned _ _ _ _ _ Hfn). reflexivity. }
  split.
  { unfold Present, held. rewrite cells_put. apply lookup_app_l_Some. exact Hb. }
  intros w s3 Hst. unfold store in Hst. rewrite cells_put in Hst.
  rewrite list_lookup_middle in Hst by reflexivity. injection Hst as <-.
  split.
  - apply deref_valid. rewrite cells_put. apply list_lookup_insert_eq.
    rewrite length_app. cbn. lia.
  - unfold Present, held. rewrite cells_put.
    rewrite list_lookup_insert_ne by lia. apply lookup_app_l_Some. exact Hb.
Qed.

End more_access.

Lemma Or_OrZero_OrCall_agree_witness :
  Empty (NewEmpty : Optional nat)
  /\ Or (NewEmpty : Optional nat) 5 [7] = Returned (5, [7])
  /\ Present [7] (mk_slice 0 1 : Optional nat) 7
  /\ Or (mk_slice 0 1 : Optional nat) 5 [7] = Returned (7, [7]).
Proof.
  split; [reflexivity|]. split.
  - apply (proj1 (Or_OrZero_OrCall_agree (St := list nat) NewEmpty 5 [7])).
    reflexivity.
  - split; [reflexivity|].
    apply (proj1 (proj2 (Or_OrZero_OrCall_agree (St := list nat) (mk_slice 0 1) 5 [7])) 7).
    reflexivity.
Defined.

Lemma Call_contract_witness :
  Empty (NewEmpty : Optional nat)
  /\ Call (NewEmpty : Optional nat) (counted record) (0, ([7], []))
     = Returned (tt, (0, ([7], [])))
  /\ Present (([7], []) : list nat * list nat) (mk_slice 0 1 : Optional nat) 7
  /\ record 7 ([7], []) = Returned (tt, ([7], [7]))
  /\ Call (mk_slice 0 1 : Optional nat) (counted record) (0, ([7], []))
     = Returned (tt, (1, ([7], [7]))).
Proof.
  pose proof (Call_contract (St := list nat * list nat) record NewEmpty ([7], []))
    as (_ & Hempty & _).
  pose proof (Call_contract (St := list nat * list nat) record (mk_slice 0 1) ([7], []))
    as (_ & _ & _ & Hpresent).
  split; [reflexivity|]. split; [apply (Hempty 0); reflexivity|].
  split; [reflexivity|]. split; [reflexivity|].
  apply (Hpresent 0 7 ([7], [7])); reflexivity.
Defined.

Lemma accessors_on_two_states_witness :
  two_states [7] (mk_slice 0 1 : Optional nat)
  /\ (exists v, Get (mk_slice 0 1 : Optional nat) [7] = Returned ((v, true), [7]))
  /\ (exists x, OrZero (mk_slice 0 1 : Optional nat) [7] = Returned (x, [7])).
Proof.
  assert (Hts : two_states [7] (mk_slice 0 1 : Optional nat)).
  { right. exists 7. reflexivity. }
  pose proof (accessors_on_two_states (St := list nat) (mk_slice 0 1) [7] Hts)
    as (HGet & _ & _ & HOrZero).
  split; [exact Hts|]. split; [exact HGet | exact HOrZero].
Defined.

Lemma Ptr_NewPtr_round_trip_witness :
  Present [7] (mk_slice 0 1 : Optional nat) 7
  /\ (exists o' s', (p <- Ptr (mk_slice 0 1 : Optional nat) ;; NewPtr p) [7]
                    = Returned (o', s')
                    /\ Present s' o' 7
                    /\ Present s' (mk_slice 0 1 : Optional nat) 7
                    /\ o' <> mk_slice 0 1).
Proof.
  split; [reflexivity|].
  apply (proj2 (Ptr_NewPtr_round_trip (St := list nat) (mk_slice 0 1) [7]) 7).
  reflexivity.
Defined.

Lemma Get_NewSafe_round_trip_witness :
  Present [7] (mk_slice 0 1 : Optional nat) 7
  /\ (exists o' s',
        (r <- Get (mk_slice 0 1 : Optional nat) ;; NewSafe (fst r) (snd r)) [7]
        = Returned (o', s')
        /\ Present s' o' 7 /\ Present s' (mk_slice 0 1 : Optional nat) 7).
Proof.
  split; [reflexivity|].
  apply (proj1 (proj2 (Get_NewSafe_round_trip (St := list nat) (mk_slice 0 1) [7])) 7).
  reflexivity.
Defined.

Lemma PtrMap_pointer_is_not_into_the_optional_witness :
  Present [41] (mk_slice 0 1 : Optional nat) 41
  /\ succ_fn 41 ([41] : list nat) = Returned (42, [41])
  /\ (exists p s2, PtrMap (mk_slice 0 1 : Optional nat) succ_fn [41]
                   = Returned (ref p, s2)
                   /\ Present s2 (mk_slice 0 1 : Optional nat) 41
                   /\ forall (w : nat) (s3 : list nat),
                        store p w s2 = Returned (tt, s3) ->
                        deref (ref p) s3 = Returned (w, s3)
                        /\ Present s3 (mk_slice 0 1 : Optional nat) 41).
Proof.
  split; [reflexivity|]. split; [reflexivity|].
  apply (PtrMap_pointer_is_not_into_the_optional (St := list nat) succ_fn
           (mk_slice 0 1) 41 42 [41] [41]); reflexivity.
Defined.

Lemma Ptr_refers_to_the_held_cell_witness :
  Present [7] (mk_slice 0 1 : Optional nat) 7
  /\ Ptr (mk_slice 0 1 : Optional nat) [7] = Returned (ref 0, [7])
  /\ store 0 99 ([7] : list nat) = Returned (tt, [99])
  /\ Present [99] (mk_slice 0 1 : Optional nat) 99.
Proof.
  split; [reflexivity|]. split; [reflexivity|]. split; [reflexivity|].
  apply (Ptr_refers_to_the_held_cell (St := list nat) (mk_slice 0 1) [7] [99] 7 99 0);
    reflexivity.
Defined.

(** ** Further properties of the pipelines *)

Section fusion.
Context {St A B C : Type} `{!Store St A} `{!Store St B} `{!Store St C}.

(** X16. [Map] composes: for functions without effects, mapping [f] and then
    [g] holds what mapping their composition holds, Empty on Empty and
    Present(g (f v)) on Present(v). *)
Theorem Map_fusion (f : A -> B) (g : B -> C) (o : Optional A) (s : St) :
  (Empty o ->
     (m <- Map o (pure f) ;; Map m (pure g)) s = Returned (NewEmpty, s)
     /\ Map o (pure (fun x => g (f x))) s = Returned (NewEmpty, s))
  /\ (forall v : A, Present s o v ->
      exists o1 s1 o2 s2,
        (m <- Map o (pure f) ;; Map m (pure g)) s = Returned (o1, s1)
        /\ Map o (pure (fun x => g (f x))) s = Returned (o2, s2)
        /\ Present s1 o1 (g (f v))
        /\ Present s2 o2 (g (f v))).
Proof.
  split; [intros ->; split; reflexivity|].
  intros v HP. pose proof (index_Present s o v HP) as Hidx.
  apply Present_header in HP as (b & -> & _).
  destruct (slice_lit_one (f v) s) as (s' & Hlit & _ & HP').
  pose proof (index_Present s' _ (f v) HP') as Hidx'.
  destruct (slice_lit_one (g (f v)) s') as (s1 & Hlit1 & _ & HP1).
  destruct (slice_lit_one (g (f v)) s) as (s2 & Hlit2 & _ & HP2).
  eexists _, s1, _, s2.
  split.
  { assert (HMap : Map (mk_slice b 1) (pure f) s
                   = Returned (mk_slice (length (cells (T := B) s)) 1, s')).
    { unfold Map. cbn [is_nil]. rewrite (bind_Returned _ _ _ _ _ Hidx).
      unfold pure at 1. rewrite (bind_Returned _ _ s s (f v) eq_refl). exact Hlit. }
    rewrite (bind_Returned _ _ _ _ _ HMap). unfold Map. cbn [is_nil].
    rewrite (bind_Returned _ _ _ _ _ Hidx').
    unfold pure at 1. rewrite (bind_Returned _ _ s' s' (g (f v)) eq_refl).
    exact Hlit1. }
  split.
  { unfold Map. cbn [is_nil]. rewrite (bind_Returned _ _ _ _ _ Hidx).
    unfold pure at 1. rewrite (bind_Returned _ _ s s (g (f v)) eq_refl).
    exact Hlit2. }
  split; [exact HP1 | exact HP2].
Qed.

End fusion.

Section infallible.
Context {St In Out : Type} `{!Store St In} `{!Store St Out}.

(** X17. [MapErr] with a function that never returns an error is [Map]: on
    every optional and state it returns what [Map] returns, with the nil
    error, and leaves the same state. *)
Theorem MapErr_of_infallible_is_Map {E : Type} (fn : In -> M St Out)
    (o : Optional In) (s : St) :
  MapErr o (fun x => y <- fn x ;; ret (y, (None : error E))) s
  = (m <- Map o fn ;; ret (m, None)) s.
Proof.
  destruct o as [|b n]; [reflexivity|].
  unfold MapErr, Map. cbn [is_nil]. unfold bind.
  destruct (index (mk_slice b n) 0 s) as [[x s1]|msg]; [| reflexivity].
  destruct (fn x s1) as [[y s2]|msg]; reflexivity.
Qed.

End infallible.

Lemma Map_fusion_witness :
  Present (([41], []) : list nat * list bool) (mk_slice 0 1 : Optional nat) 41
  /\ (exists o1 s1 o2 s2,
        (m <- Map (mk_slice 0 1 : Optional nat) (pure S) ;; Map m (pure Nat.even))
          (([41], []) : list nat * list bool)
        = Returned (o1, s1)
        /\ Map (mk_slice 0 1 : Optional nat) (pure (fun x => Nat.even (S x)))
             (([41], []) : list nat * list bool)
           = Returned (o2, s2)
        /\ Present s1 o1 true /\ Present s2 o2 true).
Proof.
  split; [reflexivity|].
  apply (proj2 (Map_fusion (St := list nat * list bool) S Nat.even
                  (mk_slice 0 1) ([41], [])) 41).
  reflexivity.
Defined.

(** ** Further properties of the JSON hooks *)

Section more_json.
Context {St E T : Type} `{!Store St T} `{!Zero T} `{!json.Codec St E T}.

(** X18. A decode that succeeds yields Empty exactly when the data is the four
    bytes [null]; on any other data it yields Present, holding the value
    [json.Unmarshal] decoded, even when that decoder left the zero value
    untouched (as it does for [null] with white space around it). *)
Theorem UnmarshalJSON_Empty_iff_null (tgt o : Optional T) (data : string) (s s' : St) :
  UnmarshalJSON tgt data s = Returned ((o, None), s') ->
  (Empty o <-> data = "null")
  /\ (data <> "null" ->
      exists (v : T) (s1 : St),
        json.Unmarshal data zero s = Returned ((v, None), s1)
        /\ Present s' o v
        /\ grown_by s1 s' [v]).
Proof.
  intros Hrun.
  destruct (String.eqb_spec data "null") as [-> | Hne].
  - unfold UnmarshalJSON in Hrun. cbn in Hrun. unfold ret in Hrun.
    injection Hrun as <- <-. split; [| intros Hne; contradiction].
    split; reflexivity.
  - rewrite (UnmarshalJSON_not_null tgt data s Hne) in Hrun.
    apply bind_inv in Hrun as ([v err] & s1 & Hdec & Hrun). cbn [snd fst] in Hrun.
    destruct err as [e|].
    { unfold ret in Hrun. discriminate Hrun. }
    apply bind_inv in Hrun as (o1 & s2 & HNew & Hret).
    unfold ret in Hret. injection Hret as <- <-.
    destruct (New_spec v s1) as (o2 & s3 & HNew' & HP & _ & Hg).
    rewrite HNew' in HNew. injection HNew as <- <-.
    split.
    + split; [| intros Heq; contradiction].
      intros HE. exfalso. eapply Present_not_Empty; eassumption.
    + intros _. exists v, s1. auto.
Qed.

(** X19. A decode replaces the target: its result does not depend on the
    optional the target held.  After a successful decode of data other
    than [null] the new optional has a cell of its own, and the optional
    the target held before, if a copy of it was kept, still holds its
    value when the decoder has only allocated. *)
Theorem UnmarshalJSON_replaces_the_target (tgt : Optional T) (data : string) (s : St) :
  (forall (tgt' o : Optional T) (s' : St),
      UnmarshalJSON tgt data s = Returned ((o, None), s') ->
      UnmarshalJSON tgt' data s = Returned ((o, None), s'))
  /\ (forall (v w : T) (s1 : St) (vs : list T),
      Present s tgt v ->
      data <> "null" ->
      json.Unmarshal data zero s = Returned ((w, None), s1) ->
      grown_by s s1 vs ->
      exists o' s2, UnmarshalJSON tgt data s = Returned ((o', None), s2)
                    /\ Present s2 o' w
                    /\ Present s2 tgt v
                    /\ o' <> tgt).
Proof.
  split.
  { intros tgt' o s' Hrun. unfold UnmarshalJSON in *.
    destruct (String.eqb data "null"); [exact Hrun|].
    unfold bind in *. destruct (json.Unmarshal data zero s) as [[[v err] s1]|msg];
      [| discriminate].
    cbn [snd fst] in *. destruct err as [e|]; [discriminate | exact Hrun]. }
  intros v w s1 vs HP Hne Hdec Hg.
  destruct (New_spec w s1) as (o' & s2 & HNew & HP' & -> & Hg').
  eexists _, s2. split.
  { rewrite (UnmarshalJSON_not_null tgt data s Hne).
    rewrite (bind_Returned _ _ _ _ _ Hdec). cbn [snd fst].
    rewrite (bind_Returned _ _ _ _ _ HNew). reflexivity. }
  split; [exact HP'|].
  pose proof (grown_keeps_Present s s1 vs tgt v Hg HP) as HP1.
  split; [eapply grown_keeps_Present; eassumption|].
  apply Present_header in HP1 as (b & -> & Hb).
  apply lookup_lt_Some in Hb. intros [= Heq]. lia.
Qed.

End more_json.

Lemma UnmarshalJSON_Empty_iff_null_witness :
  UnmarshalJSON (E := json_error) (NewEmpty : Optional bool) " null" ([] : list bool)
  = Returned ((mk_slice 0 1, None), [false])
  /\ " null" <> "null"
  /\ (exists (v : bool) (s1 : list bool),
        json.Unmarshal (E := json_error) " null" (zero : bool) ([] : list bool)
        = Returned ((v, None), s1)
        /\ Present [false] (mk_slice 0 1 : Optional bool) v
        /\ grown_by s1 [false] [v]).
Proof.
  assert (Hne : " null" <> "null") by discriminate.
  split; [reflexivity|]. split; [exact Hne|].
  refine (proj2 (UnmarshalJSON_Empty_iff_null (St := list bool) (E := json_error)
                   NewEmpty (mk_slice 0 1) " null" [] [false] _) Hne).
  reflexivity.
Defined.

Lemma UnmarshalJSON_replaces_the_target_witness :
  Present [true] (mk_slice 0 1 : Optional bool) true
  /\ "false" <> "null"
  /\ json.Unmarshal (E := json_error) "false" (zero : bool) [true]
     = Returned ((false, None), [true])
  /\ (exists o' s2,
        UnmarshalJSON (E := json_error) (mk_slice 0 1 : Optional bool) "false" [true]
        = Returned ((o', None), s2)
        /\ Present s2 o' false
        /\ Present s2 (mk_slice 0 1 : Optional bool) true
        /\ o' <> mk_slice 0 1).
Proof.
  assert (Hne : "false" <> "null") by discriminate.
  split; [reflexivity|]. split; [exact Hne|]. split; [reflexivity|].
  apply (proj2 (UnmarshalJSON_replaces_the_target (St := list bool) (E := json_error)
                  (mk_slice 0 1) "false" [true]) true false [true] []);
    [reflexivity | exact Hne | reflexivity | reflexivity].
Defined.

(** ** [String] and [GoString] *)

Lemma append_empty_r (x : string) : (x ++ "")%string = x.
Proof.
  induction x as [|c x IH]; [reflexivity|].
  exact (f_equal (String.String c) IH).
Qed.

Section stringer.
Context {St T : Type} `{!Store St T} `{!Zero T} `{!fmt.Formatter St T}.

(** X20. On every optional, [GoString] is [String] between ["Optional["] and
    ["]"].  On Empty, [String] is the empty string; on Present(v) it is
    what [%v] prints for [v].  So [String] does not tell Empty from a
    Present value that prints as the empty string. *)
Theorem GoString_wraps_String (o : Optional T) (s : St) :
  Stringer.GoString o s
  = (x <- Stringer.String o ;; ret ("Optional[" ++ x ++ "]")%string) s
  /\ (Empty o ->
      Stringer.String o s = Returned ("", s)
      /\ Stringer.GoString o s = Returned ("Optional[]", s))
  /\ (forall (v : T) (x : string) (s1 : St),
      Present s o v -> fmt.verb_v v s = Returned (x, s1) ->
      Stringer.String o s = Returned (x, s1)
      /\ Stringer.GoString o s = Returned (("Optional[" ++ x ++ "]")%string, s1))
  /\ (forall v : T,
      Present s o v -> fmt.verb_v v s = Returned ("", s) ->
      Stringer.String o s = Stringer.String (NewEmpty : Optional T) s).
Proof.
  assert (HP : forall (v : T) (x : string) (s1 : St),
             Present s o v -> fmt.verb_v v s = Returned (x, s1) ->
             Stringer.String o s = Returned (x, s1)
             /\ Stringer.GoString o s
                = Returned (("Optional[" ++ x ++ "]")%string, s1)).
  { intros v x s1 HPv Hfmt. pose proof (index_Present s o v HPv) as Hidx.
    apply Present_header in HPv as (b & -> & _).
    unfold Stringer.String, Stringer.GoString, Get, fmt.Sprintf. cbn [is_nil].
    unfold bind. rewrite Hidx. cbn [ret snd fst]. rewrite Hfmt.
    rewrite append_empty_r. split; reflexivity. }
  split.
  { unfold Stringer.String, Stringer.GoString, fmt.Sprintf, bind.
    destruct (Get o s) as [[[v ok] s1]|msg]; [| reflexivity].
    cbn [snd fst]. destruct ok; [| reflexivity].
    destruct (fmt.verb_v v s1) as [[x s2]|msg]; [| reflexivity].
    unfold ret. cbn [String.append]. rewrite append_empty_r. reflexivity. }
  split; [intros ->; split; reflexivity|].
  split; [exact HP|].
  intros v HPv Hfmt. rewrite (proj1 (HP v "" s HPv Hfmt)). reflexivity.
Qed.

End stringer.

Lemma GoString_wraps_String_witness :
  Present ["value"] (mk_slice 0 1 : Optional string) "value"
  /\ fmt.verb_v "value" ["value"] = Returned ("value", ["value"])
  /\ Stringer.String (mk_slice 0 1 : Optional string) ["value"]
     = Returned ("value", ["value"])
  /\ Stringer.GoString (mk_slice 0 1 : Optional string) ["value"]
     = Returned ("Optional[value]", ["value"])
  /\ Present [""] (mk_slice 0 1 : Optional string) ""
  /\ Stringer.String (mk_slice 0 1 : Optional string) [""]
     = Stringer.String (NewEmpty : Optional string) [""].
Proof.
  pose proof (GoString_wraps_String (St := list string) (mk_slice 0 1) ["value"])
    as (_ & _ & Hpresent & _).
  pose proof (GoString_wraps_String (St := list string) (mk_slice 0 1) [""])
    as (_ & _ & _ & Hblank).
  split; [reflexivity|]. split; [reflexivity|].
  destruct (Hpresent "value" "value" ["value"] eq_refl eq_refl) as (HS & HG).
  split; [exact HS|]. split; [exact HG|]. split; [reflexivity|].
  apply (Hblank ""); reflexivity.
Defined.

(** ** The earlier revision *)

Section earlier.
Context {St In Out : Type} `{!Store St In} `{!Store St Out} `{!Zero Out}.

(** X21. The earlier [Map] returns the bare result: the zero value of the
    result type on Empty, without calling [fn], and [fn(v)] on Present(v).
    It is the value [GetMap] returns, without the flag, so its caller
    cannot tell Empty from a result that is the zero value. *)
Theorem earlier_Map_is_GetMap_without_flag (fn : In -> M St Out)
    (o : Optional In) (s : St) :
  opt_earlier.Map o fn s = (r <- GetMap o fn ;; ret (fst r)) s
  /\ (Empty o -> opt_earlier.Map o fn s = Returned (zero, s))
  /\ (forall n : nat, Empty o ->
      opt_earlier.Map o (counted fn) (n, s) = Returned (zero, (n, s)))
  /\ (forall v : In, Present s o v -> opt_earlier.Map o fn s = fn v s)
  /\ (forall v : In, Present s o v -> fn v s = Returned (zero, s) ->
      opt_earlier.Map o fn s = opt_earlier.Map NewEmpty fn s).
Proof.
  assert (HP : forall v : In, Present s o v -> opt_earlier.Map o fn s = fn v s).
  { intros v HPv. pose proof (index_Present s o v HPv) as Hidx.
    apply Present_header in HPv as (b & -> & _).
    unfold opt_earlier.Map. cbn [is_nil]. apply bind_Returned. exact Hidx. }
  split.
  { destruct o as [|b n]; [reflexivity|].
    unfold opt_earlier.Map, GetMap. cbn [is_nil]. unfold bind.
    destruct (index (mk_slice b n) 0 s) as [[x s1]|msg]; [| reflexivity].
    destruct (fn x s1) as [[y s2]|msg]; reflexivity. }
  split; [intros ->; reflexivity|].
  split; [intros n ->; reflexivity|].
  split; [exact HP|].
  intros v HPv Hfn. rewrite (HP v HPv), Hfn. reflexivity.
Qed.

(** X22. The earlier [MapErr] returns the zero value with the nil error on
    Empty, without calling [fn], and on Present(v) exactly what [fn(v)]
    returns, the value beside an error included.  When [fn] returns the
    nil error, the later [MapErr] holds that value in a Present optional;
    when [fn] returns an error, the later one is Empty whatever the
    value. *)
Theorem earlier_MapErr_passes_through {E : Type} (fn : In -> M St (Out * error E))
    (o : Optional In) (s : St) :
  (Empty o -> opt_earlier.MapErr o fn s = Returned ((zero, None), s))
  /\ (forall n : nat, Empty o ->
      opt_earlier.MapErr o (counted fn) (n, s) = Returned ((zero, None), (n, s)))
  /\ (forall v : In, Present s o v -> opt_earlier.MapErr o fn s = fn v s)
  /\ (forall (v : In) (r : Out) (s1 : St),
      Present s o v -> fn v s = Returned ((r, None), s1) ->
      opt_earlier.MapErr o fn s = Returned ((r, None), s1)
      /\ exists o' s2, MapErr o fn s = Returned ((o', None), s2) /\ Present s2 o' r)
  /\ (forall (v : In) (r : Out) (e : E) (s1 : St),
      Present s o v -> fn v s = Returned ((r, Some e), s1) ->
      opt_earlier.MapErr o fn s = Returned ((r, Some e), s1)
      /\ MapErr o fn s = Returned ((NewEmpty, Some e), s1)).
Proof.
  assert (HP : forall v : In, Present s o v -> opt_earlier.MapErr o fn s = fn v s).
  { intros v HPv. pose proof (index_Present s o v HPv) as Hidx.
    apply Present_header in HPv as (b & -> & _).
    unfold opt_earlier.MapErr. cbn [is_nil]. apply bind_Returned. exact Hidx. }
  split; [intros ->; reflexivity|].
  split; [intros n ->; reflexivity|].
  split; [exact HP|].
  split.
  { intros v r s1 HPv Hfn. split; [rewrite (HP v HPv); exact Hfn|].
    pose proof (index_Present s o v HPv) as Hidx.
    apply Present_header in HPv as (b & -> & _).
    destruct (slice_lit_one r s1) as (s2 & Hlit & _ & HP2).
    eexists _, s2. unfold MapErr. cbn [is_nil].
    rewrite (bind_Returned _ _ _ _ _ Hidx), (bind_Returned _ _ _ _ _ Hfn).
    cbn [snd fst]. rewrite (bind_Returned _ _ _ _ _ Hlit). auto. }
  intros v r e s1 HPv Hfn. split; [rewrite (HP v HPv); exact Hfn|].
  pose proof (index_Present s o v HPv) as Hidx.
  apply Present_header in HPv as (b & -> & _). unfold MapErr. cbn [is_nil].
  rewrite (bind_Returned _ _ _ _ _ Hidx), (bind_Returned _ _ _ _ _ Hfn).
  reflexivity.
Qed.

End earlier.

Lemma earlier_Map_is_GetMap_without_flag_witness :
  Present [0] (mk_slice 0 1 : Optional nat) 0
  /\ pure Nat.pred 0 ([0] : list nat) = Returned (0, [0])
  /\ opt_earlier.Map (mk_slice 0 1 : Optional nat) (pure Nat.pred) [0]
     = opt_earlier.Map (NewEmpty : Optional nat) (pure Nat.pred) [0].
Proof.
  split; [reflexivity|]. split; [reflexivity|].
  apply (proj2 (proj2 (proj2 (proj2
           (earlier_Map_is_GetMap_without_flag (St := list nat) (pure Nat.pred)
              (mk_slice 0 1) [0])))) 0); reflexivity.
Defined.

Lemma earlier_MapErr_passes_through_witness :
  Present ((["value"], []) : conv_state) (mk_slice 0 1 : Optional string) "value"
  /\ atoi "value" ((["value"], []) : conv_state)
     = Returned ((0, Some "invalid syntax"), (["value"], []))
  /\ opt_earlier.MapErr (mk_slice 0 1 : Optional string) atoi
       ((["value"], []) : conv_state)
     = Returned ((0, Some "invalid syntax"), (["value"], []))
  /\ MapErr (mk_slice 0 1 : Optional string) atoi ((["value"], []) : conv_state)
     = Returned ((NewEmpty, Some "invalid syntax"), (["value"], [])).
Proof.
  split; [reflexivity|]. split; [reflexivity|].
  apply (proj2 (proj2 (proj2 (proj2
           (earlier_MapErr_passes_through (St := conv_state) atoi
              (mk_slice 0 1) (["value"], [])))))
           "value" 0 "invalid syntax" (["value"], [])); reflexivity.
Defined.
